(** * Signal pipeline engine of the Solana radar agent

    A shallow embedding of the four pieces of the pipeline that carry
    invariants: the normalizer ([analysis/signals]), the scoring engine
    ([analysis/scoring]), the collection step of [cron/scheduler.js] and
    the snapshot store ([storage/store]).

    Conventions of the embedding.
    - A JavaScript string is a [string]; each character stands for one
      UTF-16 code unit in the range 0..255.
    - A raw record is an arbitrary JSON value ([json]); JSON numbers are
      the integers, printed in decimal as [Number::toString] prints them.
    - A narrative has the fields the classifier is asked for, each of
      those the scorer reads possibly missing; its confidence is an exact
      rational.
    - A function that can raise a [TypeError] returns a [result].
    - The clock ([new Date().toISOString()]) is an explicit argument.
    - The data directory is a finite map from file names to documents. *)

From Stdlib Require Import ZArith QArith Qround String Ascii List Permutation Sorted Lia.
From stdpp Require Import gmap strings list fin_maps pretty sorting.

#[local] Set Warnings "-register-all".
Local Open Scope string_scope.
Local Open Scope list_scope.
Local Open Scope Z_scope.

(** ** JavaScript runtime helpers *)

Module JS.

(** [String.prototype.toLowerCase] on code units 0..255: A-Z and the
    Latin-1 capitals (except the multiplication sign) move up by 32. *)
Definition lower_code (n : N) : N :=
  if (((65 <=? n) && (n <=? 90)) || ((192 <=? n) && (n <=? 222) && negb (n =? 215)))%N
  then (n + 32)%N else n.

Definition toLowerChar (c : ascii) : ascii := ascii_of_N (lower_code (N_of_ascii c)).

Fixpoint toLowerCase (s : string) : string :=
  match s with
  | EmptyString => EmptyString
  | String c r => String (toLowerChar c) (toLowerCase r)
  end.

(** [Array.prototype.includes] on an array of strings. *)
Definition includes (l : list string) (x : string) : bool :=
  existsb (String.eqb x) l.

(** [Math.round]: the nearest integer, halves towards plus infinity. The
    argument is an exact rational, where the code rounds a binary64
    product: the two differ for a confidence within a rounding error of a
    half-point. *)
Definition Math_round (x : Q) : Z := Qfloor (x + (1 # 2))%Q.

(** [===] between a possibly missing string field and a string literal. *)
Definition strict_eq (v : option string) (lit : string) : bool :=
  match v with
  | Some s => String.eqb s lit
  | None => false
  end.

(** [x || d] for an optional array: an array, even empty, is truthy. *)
Definition or_empty {A} (v : option (list A)) : list A :=
  match v with
  | Some l => l
  | None => []
  end.

(** [x || d] for an optional number: 0 is falsy, like a missing field. *)
Definition num_or (v : option Q) (d : Q) : Q :=
  match v with
  | Some q => if Qeq_bool q 0 then d else q
  | None => d
  end.

(** *** Values, exceptions and coercions *)

(** The only exception the modelled code can raise by itself. *)
Inductive exn := TypeError.

Inductive result (A : Type) :=
  | Ok (a : A)
  | Throw (e : exn).
Arguments Ok {A} a.
Arguments Throw {A} e.

#[global] Instance result_ret : MRet result := fun A a => Ok a.
#[global] Instance result_fmap : FMap result := fun A B f m =>
  match m with
  | Ok a => Ok (f a)
  | Throw e => Throw e
  end.
#[global] Instance result_bind : MBind result := fun A B f m =>
  match m with
  | Ok a => f a
  | Throw e => Throw e
  end.

(** A JSON value. A property that is missing reads as [None]
    ([undefined]); the first binding of a key is the property. *)
Inductive json :=
  | JNull
  | JBool (b : bool)
  | JNum (n : Z)
  | JStr (s : string)
  | JArr (l : list json)
  | JObj (fields : list (string * json)).

Fixpoint assoc (k : string) (fields : list (string * json)) : option json :=
  match fields with
  | [] => None
  | (k', v) :: r => if String.eqb k k' then Some v else assoc k r
  end.

(** [raw.k] on a value that is not [null]: primitives and arrays have
    none of the properties the pipeline reads. *)
Definition prop (raw : json) (k : string) : option json :=
  match raw with
  | JObj fields => assoc k fields
  | _ => None
  end.

(** ToBoolean. *)
Definition truthy (v : json) : bool :=
  match v with
  | JNull => false
  | JBool b => b
  | JNum n => negb (n =? 0)
  | JStr s => negb (String.eqb s "")
  | JArr _ => true
  | JObj _ => true
  end.

(** [a || b] where [b] may still be [undefined]. *)
Definition oro (a b : option json) : option json :=
  match a with
  | Some v => if truthy v then Some v else b
  | None => b
  end.

(** [a || d] with a default that is a value. *)
Definition ord (a : option json) (d : json) : json :=
  match a with
  | Some v => if truthy v then v else d
  | None => d
  end.

(** ToString. An object prints as [[object Object]] unless it has an own
    [toString] property, which no JSON value can make callable; an array
    prints as [join(",")]. A number prints its decimal digits, as the code
    does for an integer that a binary64 holds exactly and that is below
    10^21. *)
Fixpoint ToString (v : json) : result string :=
  match v with
  | JNull => Ok "null"
  | JBool true => Ok "true"
  | JBool false => Ok "false"
  | JNum n => Ok (pretty n)
  | JStr s => Ok s
  | JArr l =>
      (fix items (l : list json) : result (list string) :=
         match l with
         | [] => Ok []
         | x :: r =>
             s ← match x with JNull => Ok "" | _ => ToString x end;
             ss ← items r;
             Ok (s :: ss)
         end) l ≫= fun ss => Ok (String.concat "," ss)
  | JObj fields =>
      match assoc "toString" fields with
      | Some _ => Throw TypeError
      | None => Ok "[object Object]"
      end
  end.

(** [Array.prototype.join]: [null] elements print as the empty string. *)
Fixpoint joinItems (l : list json) : result (list string) :=
  match l with
  | [] => Ok []
  | x :: r =>
      s ← match x with JNull => Ok "" | _ => ToString x end;
      ss ← joinItems r;
      Ok (s :: ss)
  end.

Definition join (sep : string) (l : list json) : result string :=
  ss ← joinItems l; Ok (String.concat sep ss).

(** *** Strings *)

(** White space of [trim] and of the regular expression class [\s]. *)
Definition is_space (c : ascii) : bool :=
  let n := N_of_ascii c in
  (((9 <=? n) && (n <=? 13)) || (n =? 32) || (n =? 160))%N.

Fixpoint trimStart (s : string) : string :=
  match s with
  | EmptyString => EmptyString
  | String c r => if is_space c then trimStart r else s
  end.

Fixpoint trimEnd (s : string) : string :=
  match s with
  | EmptyString => EmptyString
  | String c r =>
      let r' := trimEnd r in
      if is_space c && String.eqb r' "" then EmptyString else String c r'
  end.

Definition trim (s : string) : string := trimEnd (trimStart s).

(** [s.replace(/\s+/g, "_")]: every maximal run of white space becomes
    one underscore. *)
Fixpoint replaceSpaces (in_run : bool) (s : string) : string :=
  match s with
  | EmptyString => EmptyString
  | String c r =>
      if is_space c
      then if in_run then replaceSpaces true r else String "_" (replaceSpaces true r)
      else String c (replaceSpaces false r)
  end.

(** [s.substring(0, n)]. *)
Definition prefix (n : nat) (s : string) : string := substring 0 n s.

(** [s.includes(sub)] for a literal [sub] that is not empty. *)
Definition str_includes (s sub : string) : bool :=
  match index 0 sub s with
  | Some _ => true
  | None => false
  end.

(** *** Arrays *)

Section Sort.
Context {A : Type} (compareFn : A -> A -> Z).

(** [Array.prototype.sort] is stable: an element goes in front of the
    first element the comparator does not put before it. Where the
    comparator orders consistently this is the order of every stable sort;
    where it does not, an engine's order is its own. *)
Fixpoint insert (x : A) (l : list A) : list A :=
  match l with
  | [] => [x]
  | y :: r => if compareFn x y <=? 0 then x :: y :: r else y :: insert x r
  end.

Fixpoint sort (l : list A) : list A :=
  match l with
  | [] => []
  | x :: r => insert x (sort r)
  end.

End Sort.

(** [[...new Set(l)]]: the first occurrence of every string, in order. *)
Fixpoint uniq (seen : list string) (l : list string) : list string :=
  match l with
  | [] => []
  | x :: r => if includes seen x then uniq seen r else x :: uniq (x :: seen) r
  end.

(** *** 32-bit integers *)

(** ToInt32, as applied by [|] and [<<]. *)
Definition to_int32 (z : Z) : Z := (z + 2 ^ 31) mod 2 ^ 32 - 2 ^ 31.

Definition digit36 (d : Z) : ascii :=
  if d <? 10 then ascii_of_N (Z.to_N (48 + d)) else ascii_of_N (Z.to_N (87 + d)).

Fixpoint toString36_aux (fuel : nat) (n : Z) (acc : string) : string :=
  match fuel with
  | O => acc
  | S f =>
      let acc' := String (digit36 (n mod 36)) acc in
      if n / 36 =? 0 then acc' else toString36_aux f (n / 36) acc'
  end.

(** [n.toString(36)] for an integer [n >= 0]; the fuel exceeds the
    number of digits. *)
Definition toString36 (n : Z) : string :=
  toString36_aux (S (Z.to_nat (Z.log2 n))) n "".

End JS.

(** ** The normalizer ([normalizeSignal], [normalizeAll]) *)

Module Signals.
Import JS.

(** The object [normalizeSignal] returns; [sig_id] is its [id]. *)
Record Signal := mkSignal {
  sig_id : string;
  source : json;
  subSource : json;
  title : json;
  text : json;
  url : json;
  date : json;
  collectedAt : json;
  topics : list string;
  sentiment : json;
  signalType : json;
  engagement : json;
  stars : json;
  marketCap : json;
  username : json;
  ticker : json;
  address : json;
  keyInsight : json;
  dataPoint : json
}.

(** Reading any property of [null] raises. *)
Definition deref {A} (raw : json) (k : result A) : result A :=
  match raw with
  | JNull => Throw TypeError
  | _ => k
  end.

(** [a || b] where evaluating [b] may raise. *)
Definition or_else (a : option json) (b : result json) : result json :=
  match a with
  | Some v => if truthy v then Ok v else b
  | None => b
  end.

(** [raw.text?.substring(0, 50)]. *)
Definition textPrefix (raw : json) : result (option json) :=
  match prop raw "text" with
  | None => Ok None
  | Some JNull => Ok None
  | Some (JStr s) => Ok (Some (JStr (prefix 50 s)))
  | Some _ => Throw TypeError
  end.

(** [raw.url || raw.name || raw.text?.substring(0, 50) || ''], the third
    element of [parts]. *)
Definition idKey (raw : json) : result json :=
  or_else (oro (prop raw "url") (prop raw "name"))
          (t ← textPrefix raw; Ok (ord t (JStr ""))).

Definition hashStep (hash : Z) (c : ascii) : Z :=
  to_int32 (to_int32 (Z.shiftl hash 5) - hash + Z.of_N (N_of_ascii c)).

Fixpoint hashLoop (hash : Z) (str : string) : Z :=
  match str with
  | EmptyString => hash
  | String c r => hashLoop (hashStep hash c) r
  end.

Definition generateId (raw : json) : result string :=
  deref raw (
    key ← idKey raw;
    str ← join "|" [ord (prop raw "source") (JStr "");
                    ord (prop raw "subSource") (JStr "");
                    key];
    Ok ("sig_" +:+ toString36 (Z.abs (hashLoop 0 str)))).

Definition extractTitle (raw : json) : result json :=
  deref raw (
    match oro (prop raw "name") None with
    | Some name => Ok name
    | None =>
        match oro (prop raw "text") None with
        | Some (JStr s) => Ok (JStr (trim (prefix 100 s)))
        | Some _ => Throw TypeError
        | None =>
            match oro (prop raw "ticker") None with
            | Some t => s ← ToString t; Ok (JStr ("$" +:+ s))
            | None => Ok (JStr "Untitled Signal")
            end
        end
    end).

(** [v === lit]. *)
Definition is_str (v : option json) (lit : string) : bool :=
  match v with
  | Some (JStr s) => String.eqb s lit
  | _ => false
  end.

(** [v?.includes(lit)]: strings and arrays have an [includes] method. *)
Definition includes_opt (v : option json) (lit : string) : result bool :=
  match v with
  | None => Ok false
  | Some JNull => Ok false
  | Some (JStr s) => Ok (str_includes s lit)
  | Some (JArr l) => Ok (existsb (fun x => is_str (Some x) lit) l)
  | Some _ => Throw TypeError
  end.

(** [a || b] on booleans where either side may raise. *)
Definition lazy_orb (a b : result bool) : result bool :=
  match a with
  | Ok true => Ok true
  | Ok false => b
  | Throw e => Throw e
  end.

Definition classifySignalType (raw : json) : result string :=
  deref raw (
    if is_str (prop raw "source") "github" then Ok "developer_activity"
    else if is_str (prop raw "source") "research" then Ok "research_insight"
    else
      match lazy_orb (includes_opt (prop raw "subSource") "pumpfun")
                     (includes_opt (prop raw "subSource") "dexscreener") with
      | Throw e => Throw e
      | Ok true => Ok "token_activity"
      | Ok false =>
          if is_str (prop raw "source") "onchain" then Ok "onchain_activity"
          else if is_str (prop raw "source") "social" then
            if is_str (prop raw "subSource") "kol" then Ok "kol_signal"
            else if is_str (prop raw "subSource") "trending" then Ok "social_trending"
            else Ok "social_mention"
          else Ok "general"
      end).

Fixpoint normalizeTopics (l : list json) : result (list string) :=
  match l with
  | [] => Ok []
  | t :: r =>
      s ← ToString t;
      ss ← normalizeTopics r;
      Ok (replaceSpaces false (trim (toLowerCase s)) :: ss)
  end.

Definition keepTopic (t : string) : bool :=
  (0 <? String.length t)%nat && (String.length t <? 50)%nat.

Definition dedupeTopics (topics : json) : result (list string) :=
  match topics with
  | JArr l =>
      normalized ← normalizeTopics l;
      Ok (uniq [] (List.filter keepTopic normalized))
  | _ => Ok []
  end.

(** [now] is the reading of the clock during the call. *)
Definition normalizeSignal (now : string) (raw : json) : result Signal :=
  id ← generateId raw;
  title ← or_else (oro (prop raw "name") (prop raw "title")) (extractTitle raw);
  topics ← dedupeTopics (ord (prop raw "topics") (JArr []));
  signalType ← or_else (prop raw "signalType") (JStr <$> classifySignalType raw);
  Ok {| sig_id := id;
        source := ord (prop raw "source") (JStr "unknown");
        subSource := ord (oro (prop raw "subSource") (prop raw "sub_source")) (JStr "unknown");
        title := title;
        text := ord (oro (prop raw "text") (prop raw "description")) (JStr "");
        url := ord (oro (oro (prop raw "url") (prop raw "news_url")) (prop raw "html_url")) JNull;
        date := ord (oro (oro (prop raw "date") (prop raw "createdAt")) (prop raw "collectedAt"))
                    (JStr now);
        collectedAt := ord (prop raw "collectedAt") (JStr now);
        topics := topics;
        sentiment := ord (prop raw "sentiment") (JStr "neutral");
        signalType := signalType;
        engagement := ord (prop raw "engagement") JNull;
        stars := ord (prop raw "stars") JNull;
        marketCap := ord (prop raw "marketCap") JNull;
        username := ord (prop raw "username") JNull;
        ticker := ord (prop raw "ticker") JNull;
        address := ord (prop raw "address") JNull;
        keyInsight := ord (prop raw "keyInsight") JNull;
        dataPoint := ord (prop raw "dataPoint") JNull |}.

(** A signal as the object it is, for a caller that hands signals back
    to the normalizer or persists them. *)
Definition toJson (s : Signal) : json :=
  JObj [("id", JStr (sig_id s));
        ("source", source s);
        ("subSource", subSource s);
        ("title", title s);
        ("text", text s);
        ("url", url s);
        ("date", date s);
        ("collectedAt", collectedAt s);
        ("topics", JArr (map JStr (topics s)));
        ("sentiment", sentiment s);
        ("signalType", signalType s);
        ("engagement", engagement s);
        ("stars", stars s);
        ("marketCap", marketCap s);
        ("username", username s);
        ("ticker", ticker s);
        ("address", address s);
        ("keyInsight", keyInsight s);
        ("dataPoint", dataPoint s)].

Section NormalizeAll.

(** The time value of [new Date(v)], [None] when it is [NaN]. *)
Variable dateValue : json -> option Z.

(** The clock: [clock i] is its reading while the [i]-th record is
    normalized. *)
Variable clock : nat -> string.

(** The comparator of the final sort; a [NaN] difference counts as 0. *)
Definition byDate (a b : Signal) : Z :=
  match dateValue (date b), dateValue (date a) with
  | Some tb, Some ta => tb - ta
  | _, _ => 0
  end.

(** The [for] loop, with its two accumulators. *)
Fixpoint normalizeLoop (i : nat) (rawSignals : list json)
    (seen : gset string) (normalized : list Signal) : result (list Signal) :=
  match rawSignals with
  | [] => Ok normalized
  | raw :: rest =>
      signal ← normalizeSignal (clock i) raw;
      if decide (sig_id signal ∈ seen)
      then normalizeLoop (S i) rest seen normalized
      else normalizeLoop (S i) rest ({[sig_id signal]} ∪ seen) (normalized ++ [signal])
  end.

Definition normalizeAll (rawSignals : list json) : result (list Signal) :=
  normalized ← normalizeLoop 0 rawSignals ∅ [];
  Ok (sort byDate normalized).

End NormalizeAll.

(** *** Vocabulary of the properties *)

(** [normalizeSignal] returns a signal on [raw]. *)
Definition totalOn (now : string) (raw : json) : Prop :=
  exists s, normalizeSignal now raw = Ok s.

(** The id [generateId] gives, for the records on which it returns. *)
Definition idOf (raw : json) : string :=
  match generateId raw with
  | Ok id => id
  | Throw _ => ""
  end.

(** Normalizing the signals of [normalizeAll] once more gives the same
    set of ids. *)
Definition idempotentIds (dateValue : json -> option Z) (clock : nat -> string)
    (raws : list json) : Prop :=
  forall sigs, normalizeAll dateValue clock raws = Ok sigs ->
  exists sigs', normalizeAll dateValue clock (map toJson sigs) = Ok sigs' /\
    list_to_set (map sig_id sigs') =@{gset string} list_to_set (map sig_id sigs).

End Signals.

(** ** The scoring engine ([scoreNarratives]) *)

Module Scoring.
Import JS.

(** A narrative as the clustering step returns it; every field the
    scorer reads may be missing. *)
Record Narrative := mkNarrative {
  n_id : string;
  n_name : string;
  n_description : string;
  n_evidence : option (list string);
  n_sources : option (list string);
  n_topics : option (list string);
  n_stage : option string;
  n_confidence : option Q;
  n_velocity : option string
}.

(** The [scores] object, in the order its keys are assigned. *)
Record Scores := mkScores {
  crossSource : Z;
  evidence : Z;
  velocity : Z;
  stage : Z;
  confidence : Z;
  signalCount : Z
}.

(** [{...narrative, scores, totalScore, matchingSignalCount, rank}]:
    every field of the narrative, and the four fields the scorer sets. *)
Record Scored := mkScored {
  narrative : Narrative;
  scores : Scores;
  totalScore : Z;
  matchingSignalCount : Z;
  rank : Z
}.

(** [Object.values(scores)]. *)
Definition values (s : Scores) : list Z :=
  [crossSource s; evidence s; velocity s; stage s; confidence s; signalCount s].

Section WithSignals.

(** The scorer reads nothing of a signal but its [topics]. *)
Context {Signal : Type} (topics : Signal -> list string).

Definition uniqueSources (n : Narrative) : gset string :=
  list_to_set (or_empty (n_sources n)).

Definition narrativeTopics (n : Narrative) : list string :=
  map toLowerCase (or_empty (n_topics n)).

Definition matchingSignals (n : Narrative) (signals : list Signal) : list Signal :=
  filter (fun s => existsb (fun t => includes (narrativeTopics n) (toLowerCase t)) (topics s))
         signals.

Definition computeScores (n : Narrative) (signals : list Signal) : Scores :=
  {| crossSource := Z.min (Z.of_nat (size (uniqueSources n)) * 8) 30;
     evidence := Z.min (Z.of_nat (length (or_empty (n_evidence n))) * 8) 25;
     velocity := if strict_eq (n_velocity n) "rising" then 20
                 else if strict_eq (n_velocity n) "stable" then 10
                 else 5;
     stage := if strict_eq (n_stage n) "emerging" then 15
              else if strict_eq (n_stage n) "accelerating" then 12
              else 5;
     confidence := Math_round (num_or (n_confidence n) (1 # 2) * 10)%Q;
     signalCount := Z.min (Z.of_nat (length (matchingSignals n signals)) / 2) 10 |}.

(** The body of the [map] callback. *)
Definition scoreOne (signals : list Signal) (n : Narrative) : Scored :=
  let sc := computeScores n signals in
  {| narrative := n;
     scores := sc;
     totalScore := fold_left Z.add (values sc) 0;
     matchingSignalCount := Z.of_nat (length (matchingSignals n signals));
     rank := 0 |}.

(** The comparator handed to [sort]. *)
Definition compareFn (a b : Scored) : Z := totalScore b - totalScore a.

Definition setRank (i : nat) (n : Scored) : Scored :=
  {| narrative := narrative n;
     scores := scores n;
     totalScore := totalScore n;
     matchingSignalCount := matchingSignalCount n;
     rank := Z.of_nat i + 1 |}.

(** [scored.forEach((n, i) => { n.rank = i + 1; })]. *)
Definition assignRanks (l : list Scored) : list Scored := imap setRank l.

Definition scoreNarratives (narratives : list Narrative) (signals : list Signal)
  : list Scored :=
  assignRanks (sort compareFn (map (scoreOne signals) narratives)).

End WithSignals.

(** *** Vocabulary of the properties *)

(** The documented maxima of the six sub-scores. *)
Definition withinMaxima (s : Scores) : Prop :=
  crossSource s <= 30 /\ evidence s <= 25 /\ velocity s <= 20 /\
  stage s <= 15 /\ confidence s <= 10 /\ signalCount s <= 10.

(** The sum of the six sub-scores, written out. *)
Definition sumOfSix (s : Scores) : Z :=
  crossSource s + evidence s + velocity s + stage s + confidence s + signalCount s.

(** A confidence that, when present, is a probability. *)
Definition confidenceInRange (n : Narrative) : Prop :=
  forall c, n_confidence n = Some c -> (0 <= c <= 1)%Q.

(** Dense ranking in the sense of shared ranks: narratives of equal
    [totalScore] have one rank. *)
Definition tiesShareRank (out : list Scored) : Prop :=
  forall a b, a ∈ out -> b ∈ out -> totalScore a = totalScore b -> rank a = rank b.

End Scoring.

(** ** The collection step ([runCollection]) *)

Module Scheduler.
Import JS.

(** One outcome of [Promise.allSettled]; [reason] is the message of the
    rejection. *)
Inductive settled :=
  | fulfilled (value : list json)
  | rejected (reason : string).

(** The accumulator [allRawSignals] and the lines written with
    [console.error]. *)
Record collection := mkCollection {
  allRawSignals : list json;
  errors : list string
}.

(** [if (r.status === 'fulfilled') allRawSignals.push(...r.value);
     else console.error(label, r.reason?.message);] *)
Definition gather (label : string) (r : settled) (c : collection) : collection :=
  match r with
  | fulfilled value =>
      {| allRawSignals := allRawSignals c ++ value; errors := errors c |}
  | rejected reason =>
      {| allRawSignals := allRawSignals c;
         errors := errors c ++ [label +:+ " " +:+ reason] |}
  end.

(** The four adapters settle, then their outcomes are gathered in the
    order in which the adapters are listed. *)
Definition collect (socialResult onchainResult githubResult researchResult : settled)
  : collection :=
  let c0 := {| allRawSignals := []; errors := [] |} in
  let c1 := gather "[Scheduler] Social collection failed:" socialResult c0 in
  let c2 := gather "[Scheduler] OnChain collection failed:" onchainResult c1 in
  let c3 := gather "[Scheduler] GitHub collection failed:" githubResult c2 in
  gather "[Scheduler] Research collection failed:" researchResult c3.

(** *** Vocabulary of the properties *)

(** What an adapter contributes. *)
Definition records (r : settled) : list json :=
  match r with
  | fulfilled value => value
  | rejected _ => []
  end.

Definition failed (r : settled) : bool :=
  match r with
  | fulfilled _ => false
  | rejected _ => true
  end.

End Scheduler.

(** ** The snapshot store ([saveNarratives], [loadLatestNarratives]) *)

Module Store.

Section Store.

(** What is stored is opaque to the store. *)
Context {Signal Narrative Stats Meta : Type}.

(** The object [saveSignals] serialises, by the parts its literal
    [{ timestamp, signalCount, ...meta, signals }] is built from, in that
    order. A key of [meta] comes after [timestamp] and [signalCount] and
    takes their place; it comes before [signals], which takes its place. *)
Record SignalData := mkSignalData {
  sd_timestamp : string;
  signalCount : nat;
  meta : Meta;
  signals : list Signal
}.

(** The object [saveNarratives] serialises. *)
Record NarrativeData := mkNarrativeData {
  nd_timestamp : string;
  narrativeCount : nat;
  stats : Stats;
  narratives : list Narrative
}.

(** A file of the data directory: the document its JSON text denotes,
    for the documents the store writes, or a file no document comes from
    (it cannot be read, its text is not JSON, or it denotes a falsy
    value). Files that denote other values are not modelled. *)
Inductive file :=
  | SignalFile (data : SignalData)
  | NarrativeFile (data : NarrativeData)
  | Unreadable.

(** What a reader finds under the keys [timestamp] and [signalCount] of
    a signal document; [own meta k] is the own property [k] of [meta]. *)
Section Spread.
Variable own : Meta -> string -> option JS.json.

Definition timestampOf (data : SignalData) : JS.json :=
  default (JS.JStr (sd_timestamp data)) (own (meta data) "timestamp").

Definition signalCountOf (data : SignalData) : JS.json :=
  default (JS.JNum (Z.of_nat (signalCount data))) (own (meta data) "signalCount").

End Spread.

(** [JSON.parse(fs.readFileSync(path))] as the readers use it: inside a
    [try] whose [catch] gives [null], the result kept only when truthy. *)
Definition parsed (f : file) : option file :=
  match f with
  | Unreadable => None
  | _ => Some f
  end.

(** The data directory maps each file name to its file; it is a
    [gmap string file] throughout. *)

(** [fs.writeFileSync(path, text)]: the one effect of the store. An
    effect is a write that returned; a write that raises is not modelled. *)
Inductive effect := writeFileSync (path : string) (f : file).

Definition perform (e : effect) (d : gmap string file) : gmap string file :=
  match e with
  | writeFileSync path f => <[path := f]> d
  end.

(** The directory after a sequence of effects. *)
Definition run (es : list effect) (d : gmap string file) : gmap string file :=
  fold_left (fun d e => perform e d) es d.

(** Every directory the sequence goes through, the initial one included. *)
Fixpoint states (es : list effect) (d : gmap string file) : list (gmap string file) :=
  match es with
  | [] => [d]
  | e :: r => d :: states r (perform e d)
  end.

(** [replace(/[:.]/g, '-')]. *)
Definition dash (c : ascii) : ascii :=
  if Ascii.eqb c ":" || Ascii.eqb c "." then "-"%char else c.

Fixpoint dashes (s : string) : string :=
  match s with
  | EmptyString => EmptyString
  | String c r => String (dash c) (dashes r)
  end.

Definition signalsFile (now : string) : string := "signals_" +:+ dashes now +:+ ".json".
Definition narrativesFile (now : string) : string := "narratives_" +:+ dashes now +:+ ".json".

Definition signalsLatest : string := "signals_latest.json".
Definition narrativesLatest : string := "narratives_latest.json".

(** [now] and [now'] are the two readings of the clock, the first for
    the file name and the second for the [timestamp] field. The result
    is the effects in the order they happen, and the returned path.
    The object of [saveSignals] is held by the parts of its literal; see
    [timestampOf] and [signalCountOf] for what [meta] does to it. *)
Definition saveSignals (now now' : string) (signals : list Signal) (meta : Meta)
  : list effect * string :=
  let filename := signalsFile now in
  let data := SignalFile {| sd_timestamp := now';
                            signalCount := length signals;
                            meta := meta;
                            signals := signals |} in
  ([writeFileSync filename data; writeFileSync signalsLatest data], filename).

Definition saveNarratives (now now' : string) (narratives : list Narrative) (stats : Stats)
  : list effect * string :=
  let filename := narrativesFile now in
  let data := NarrativeFile {| nd_timestamp := now';
                               narrativeCount := length narratives;
                               stats := stats;
                               narratives := narratives |} in
  ([writeFileSync filename data; writeFileSync narrativesLatest data], filename).

(** [null] when the file does not exist or no document comes from it. *)
Definition loadLatestSignals (d : gmap string file) : option file :=
  d !! signalsLatest ≫= parsed.
Definition loadLatestNarratives (d : gmap string file) : option file :=
  d !! narrativesLatest ≫= parsed.

(** The filter of [loadNarrativeHistory]: the immutable records. *)
Definition isNarrativeSnapshot (f : string) : bool :=
  String.prefix "narratives_" f && negb (String.eqb f narrativesLatest).

(** *** Vocabulary of the properties *)

(** The shape of a [toISOString] value. *)

Definition isDigit (c : ascii) : bool :=
  let n := N_of_ascii c in ((48 <=? n) && (n <=? 57))%N.

Fixpoint matches (shape : list (ascii -> bool)) (s : string) : bool :=
  match shape, s with
  | [], EmptyString => true
  | p :: ps, String c r => p c && matches ps r
  | _, _ => false
  end.

(** [YYYY-MM-DDTHH:mm:ss.sssZ], for the years 0 to 9999. *)
Definition isoShape : list (ascii -> bool) :=
  [isDigit; isDigit; isDigit; isDigit; Ascii.eqb "-";
   isDigit; isDigit; Ascii.eqb "-";
   isDigit; isDigit; Ascii.eqb "T";
   isDigit; isDigit; Ascii.eqb ":";
   isDigit; isDigit; Ascii.eqb ":";
   isDigit; isDigit; Ascii.eqb ".";
   isDigit; isDigit; isDigit; Ascii.eqb "Z"].

Definition isISO (now : string) : bool := matches isoShape now.

(** The invariant of the alias: what [narratives_latest.json] holds is
    also held by an immutable record. *)
Definition latestBacked (d : gmap string file) : Prop :=
  forall f, d !! narrativesLatest = Some f ->
  exists name, isNarrativeSnapshot name = true /\ d !! name = Some f.

(** The document a call of [saveNarratives] writes. *)
Definition written (now' : string) (narratives : list Narrative) (stats : Stats)
  : file :=
  NarrativeFile {| nd_timestamp := now';
                   narrativeCount := length narratives;
                   stats := stats;
                   narratives := narratives |}.

(** The effects of two calls in a row. *)
Definition twoSaves (t1 t1' : string) (n1 : list Narrative) (s1 : Stats)
    (t2 t2' : string) (n2 : list Narrative) (s2 : Stats)
  : list effect :=
  (saveNarratives t1 t1' n1 s1).1 ++ (saveNarratives t2 t2' n2 s2).1.

(** After the two calls both records are there with their content and
    the alias holds the second content. *)
Definition recordsKept (d0 : gmap string file)
    (t1 t1' : string) (n1 : list Narrative) (s1 : Stats)
    (t2 t2' : string) (n2 : list Narrative) (s2 : Stats) : Prop :=
  let d := run (twoSaves t1 t1' n1 s1 t2 t2' n2 s2) d0 in
  d !! (saveNarratives t1 t1' n1 s1).2 = Some (written t1' n1 s1) /\
  d !! (saveNarratives t2 t2' n2 s2).2 = Some (written t2' n2 s2) /\
  loadLatestNarratives d = Some (written t2' n2 s2).

(** The alias was backed at every point on the way, before the first
    write and after each of the four. *)
Definition aliasBacked (d0 : gmap string file)
    (t1 t1' : string) (n1 : list Narrative) (s1 : Stats)
    (t2 t2' : string) (n2 : list Narrative) (s2 : Stats) : Prop :=
  Forall latestBacked (states (twoSaves t1 t1' n1 s1 t2 t2' n2 s2) d0).

(** Both together. *)
Definition snapshotsKept (d0 : gmap string file)
    (t1 t1' : string) (n1 : list Narrative) (s1 : Stats)
    (t2 t2' : string) (n2 : list Narrative) (s2 : Stats) : Prop :=
  recordsKept d0 t1 t1' n1 s1 t2 t2' n2 s2 /\
  aliasBacked d0 t1 t1' n1 s1 t2 t2' n2 s2.

End Store.

Arguments SignalData : clear implicits.
Arguments NarrativeData : clear implicits.
Arguments file : clear implicits.
Arguments effect : clear implicits.

End Store.

(** ** Records of the expected shape *)

Module Shape.
Import JS Signals.

(** A string, a number, a boolean or [null]. *)
Definition isScalar (v : json) : bool :=
  match v with
  | JArr _ => false
  | JObj _ => false
  | _ => true
  end.

(** A field that is missing or a scalar. *)
Definition optScalar (o : option json) : bool :=
  match o with
  | None => true
  | Some v => isScalar v
  end.

(** A field that is missing, [null] or a string. *)
Definition optString (o : option json) : bool :=
  match o with
  | None => true
  | Some JNull => true
  | Some (JStr _) => true
  | Some _ => false
  end.

(** A [topics] field that, when an array, holds scalars. *)
Definition optTags (o : option json) : bool :=
  match o with
  | Some (JArr l) => forallb isScalar l
  | _ => true
  end.

(** A raw value the normalizer is written for: not [null]; [text] and
    [subSource] strings where present; [source], [url], [name] and
    [ticker] scalars where present; scalar topics. Any field may be
    missing, and fields that are only copied are not constrained. *)
Definition wellTyped (raw : json) : bool :=
  match raw with
  | JNull => false
  | _ =>
      optString (prop raw "text") && optString (prop raw "subSource") &&
      optScalar (prop raw "source") && optScalar (prop raw "url") &&
      optScalar (prop raw "name") && optScalar (prop raw "ticker") &&
      optTags (prop raw "topics")
  end.

(** A field that is missing or falsy: [raw.k || x] is [x]. *)
Definition absent (o : option json) : bool :=
  match o with
  | Some v => negb (truthy v)
  | None => true
  end.

(** A record whose identity survives normalization. Its [source] and
    [subSource] are truthy, so no default takes their place; and what
    keys it is still there in the signal: a truthy [url], or, for a
    record without [url], [news_url], [html_url] and [name], its text (a
    truthy [text], or no [description] that would take its place). *)
Definition hasIdentity (raw : json) : bool :=
  negb (absent (prop raw "source")) && negb (absent (prop raw "subSource")) &&
  (negb (absent (prop raw "url"))
   || (absent (prop raw "news_url") && absent (prop raw "html_url") &&
       absent (prop raw "name") &&
       (negb (absent (prop raw "text")) || absent (prop raw "description")))).

End Shape.

(** ** Canonical forms *)

Module Canon.
Import JS Signals.

(** Every character of [s] satisfies [p]. *)
Fixpoint allChars (p : ascii -> bool) (s : string) : bool :=
  match s with
  | EmptyString => true
  | String c r => p c && allChars p r
  end.

(** A digit of base 36: 0-9 or a-z. *)
Definition isBase36 (c : ascii) : bool :=
  let n := N_of_ascii c in
  (((48 <=? n) && (n <=? 57)) || ((97 <=? n) && (n <=? 122)))%N.

(** The ids [generateId] builds: [sig_] and one to six digits of base 36. *)
Definition isId (id : string) : Prop :=
  exists digits, id = "sig_" +:+ digits /\
    (1 <= String.length digits <= 6)%nat /\ allChars isBase36 digits = true.

Definition notSpace (c : ascii) : bool := negb (is_space c).

(** A character [toLowerCase] leaves alone. *)
Definition isLower (c : ascii) : bool := Ascii.eqb (toLowerChar c) c.

(** A topic tag in the form [dedupeTopics] produces: 1 to 49 characters,
    no white space, nothing left to lower-case. *)
Definition isTag (t : string) : bool :=
  keepTopic t && allChars notSpace t && allChars isLower t.

End Canon.

(** ** Build ideas ([generateBuildIdeas]) *)

Module BuildIdeas.
Import JS Signals.

(** What comes back from the model for one prompt: the parsed JSON
    ([null] when nothing parses), or a rejection with its message. *)
Inductive reply :=
  | answered (value : json)
  | rejected (message : string).

(** What a call can end in other than its value. *)
Inductive failure :=
  | Rejected (message : string)
  | Raised (e : exn).

Record Idea := mkIdea {
  name : json;
  oneLiner : json;
  description : json;
  whySolana : json;
  technicalApproach : json;
  difficulty : json;
  targetUser : json;
  monetization : json
}.

(** The callback of [result.ideas.map]. *)
Definition ideaOf (idea : json) : result Idea :=
  deref idea (Ok
    {| name := ord (prop idea "name") (JStr "Unnamed Idea");
       oneLiner := ord (oro (prop idea "oneLiner") (prop idea "one_liner")) (JStr "");
       description := ord (prop idea "description") (JStr "");
       whySolana := ord (oro (prop idea "whySolana") (prop idea "why_solana")) (JStr "");
       technicalApproach :=
         ord (oro (prop idea "technicalApproach") (prop idea "technical_approach")) (JStr "");
       difficulty := ord (prop idea "difficulty") (JStr "medium");
       targetUser := ord (oro (prop idea "targetUser") (prop idea "target_user")) (JStr "");
       monetization := ord (prop idea "monetization") (JStr "") |}).

Fixpoint mapIdeas (ideas : list json) : result (list Idea) :=
  match ideas with
  | [] => Ok []
  | idea :: rest =>
      first ← ideaOf idea;
      others ← mapIdeas rest;
      Ok (first :: others)
  end.

(** [generateIdeasForNarrative] from the reply on: the prompt itself
    only goes out to the model. *)
Definition generateIdeasForNarrative (r : reply) : failure + list Idea :=
  match r with
  | rejected message => inl (Rejected message)
  | answered result =>
      match result with
      | JNull => inr []
      | _ =>
          match prop result "ideas" with
          | Some (JArr ideas) =>
              match mapIdeas ideas with
              | Ok mapped => inr mapped
              | Throw e => inl (Raised e)
              end
          | _ => inr []
          end
      end
  end.

Section Enrich.

(** The narratives are opaque here; [askGrok i n] is the reply to the
    [i]-th call, made for narrative [n]. Anything raised before the reply
    is there (building the prompt of a narrative whose [evidence] is not
    an array, the request itself) is a rejection: the [catch] of the loop
    treats them alike. *)
Context {Narrative : Type} (askGrok : nat -> Narrative -> reply).

(** [{...narrative, buildIdeas}]. *)
Record Enriched := mkEnriched {
  narrative : Narrative;
  buildIdeas : list Idea
}.

(** The [for] loop with its [try]/[catch]. *)
Fixpoint enrichLoop (i : nat) (narratives : list Narrative) (enriched : list Enriched)
  : list Enriched :=
  match narratives with
  | [] => enriched
  | n :: rest =>
      let ideas := match generateIdeasForNarrative (askGrok i n) with
                   | inr ideas => ideas
                   | inl _ => []
                   end in
      enrichLoop (S i) rest (enriched ++ [{| narrative := n; buildIdeas := ideas |}])
  end.

Definition generateBuildIdeas (narratives : list Narrative) : list Enriched :=
  enrichLoop 0 narratives [].

(** The ideas the [i]-th call leaves its narrative with. *)
Definition ideasFor (i : nat) (n : Narrative) : list Idea :=
  match generateIdeasForNarrative (askGrok i n) with
  | inr ideas => ideas
  | inl _ => []
  end.

End Enrich.

Arguments Enriched : clear implicits.

(** *** Vocabulary of the properties *)

(** A reply that yields ideas: an object whose [ideas] is an array
    without a [null] in it. *)
Definition usable (r : reply) : bool :=
  match r with
  | answered (JObj fields) =>
      match assoc "ideas" fields with
      | Some (JArr ideas) => forallb (fun i => match i with JNull => false | _ => true end) ideas
      | _ => false
      end
  | _ => false
  end.

(** An idea with a name and a difficulty. *)
Definition wellNamed (i : Idea) : Prop :=
  truthy (name i) = true /\ truthy (difficulty i) = true.

(** The [ideas] array of a reply, empty where there is none. *)
Definition offered (r : reply) : list json :=
  match r with
  | answered (JObj fields) =>
      match assoc "ideas" fields with
      | Some (JArr ideas) => ideas
      | _ => []
      end
  | _ => []
  end.

End BuildIdeas.

(** ** Reading the store ([loadNarrativeHistory], [getStorageStats]) *)

Module StoreQueries.
Import Store.

(** The order of [Array.prototype.sort] without a comparator on strings:
    by code units. *)
Definition byCodeUnits (a b : string) : Z :=
  match String.compare a b with
  | Lt => -1
  | Eq => 0
  | Gt => 1
  end.

(** [l.slice(0, limit)]: a negative [limit] counts from the end. *)
Definition slice0 {A} (limit : Z) (l : list A) : list A :=
  if limit <? 0 then take (Z.to_nat (Z.of_nat (length l) + limit)) l
  else take (Z.to_nat limit) l.

(** The filter of [loadSignalHistory]. *)
Definition isSignalSnapshot (f : string) : bool :=
  String.prefix "signals_" f && negb (String.eqb f signalsLatest).

Section Queries.
Context {Signal Narrative Stats Meta : Type}.

(** [fs.readdirSync(DATA_DIR)]; every use sorts or counts the names, so
    their order here plays no part. *)
Definition readdirSync (d : gmap string (file Signal Narrative Stats Meta)) : list string :=
  elements (dom d).

(** The constant [files] of the two history functions. *)
Definition historyFiles (keep : string -> bool) (limit : Z)
    (d : gmap string (file Signal Narrative Stats Meta)) : list string :=
  slice0 limit (reverse (JS.sort byCodeUnits (List.filter keep (readdirSync d)))).

(** [dataDir] is [None] when the data directory does not exist. The
    files are cut down to [limit] first and read then; a file no document
    comes from is left out of the result. *)
Definition loadSignalHistory (limit : Z)
    (dataDir : option (gmap string (file Signal Narrative Stats Meta)))
  : list (file Signal Narrative Stats Meta) :=
  match dataDir with
  | None => []
  | Some d => omap (fun f => d !! f ≫= parsed) (historyFiles isSignalSnapshot limit d)
  end.

Definition loadNarrativeHistory (limit : Z)
    (dataDir : option (gmap string (file Signal Narrative Stats Meta)))
  : list (file Signal Narrative Stats Meta) :=
  match dataDir with
  | None => []
  | Some d => omap (fun f => d !! f ≫= parsed) (historyFiles isNarrativeSnapshot limit d)
  end.

(** The object [getStorageStats] returns; the two flags are missing
    ([None]) when the directory does not exist. *)
Record StorageStats := mkStorageStats {
  signalSnapshots : nat;
  narrativeSnapshots : nat;
  hasLatestSignals : option bool;
  hasLatestNarratives : option bool
}.

Definition getStorageStats
    (dataDir : option (gmap string (file Signal Narrative Stats Meta))) : StorageStats :=
  match dataDir with
  | None =>
      {| signalSnapshots := 0; narrativeSnapshots := 0;
         hasLatestSignals := None; hasLatestNarratives := None |}
  | Some d =>
      let files := readdirSync d in
      {| signalSnapshots := length (List.filter isSignalSnapshot files);
         narrativeSnapshots := length (List.filter isNarrativeSnapshot files);
         hasLatestSignals := Some (bool_decide (is_Some (d !! signalsLatest)));
         hasLatestNarratives := Some (bool_decide (is_Some (d !! narrativesLatest))) |}
  end.

(** *** Vocabulary of the properties *)

(** [a] sorts after [b]; among snapshot names of one kind written at
    ISO times, the one written later. *)
Definition newer (a b : string) : Prop := String.compare b a = Lt.

(** A document comes from the file [f] of [d]. *)
Definition readable (d : gmap string (file Signal Narrative Stats Meta)) (f : string) : bool :=
  match d !! f ≫= parsed with
  | Some _ => true
  | None => false
  end.

(** [docs] is what the most recent files give: [names] are the most
    recent file names of [d] that [keep] admits, newest first, as many as
    [limit] lets through, and [docs] are the documents of those of them
    from which a document comes, in the same order. *)
Definition mostRecent (keep : string -> bool) (limit : Z)
    (d : gmap string (file Signal Narrative Stats Meta))
    (docs : list (file Signal Narrative Stats Meta)) : Prop :=
  exists names,
    Forall (fun f => keep f = true /\ is_Some (d !! f)) names /\
    Sorted newer names /\
    Z.of_nat (length names) =
      (let count := Z.of_nat (length (List.filter keep (readdirSync d))) in
       if limit <? 0 then Z.max 0 (count + limit) else Z.min limit count) /\
    (forall f g, is_Some (d !! f) -> keep f = true -> f ∉ names -> g ∈ names -> newer g f) /\
    Forall2 (fun f doc => d !! f = Some doc /\ doc <> Unreadable)
            (List.filter (readable d) names) docs /\
    (Forall (fun f => readable d f = true) names -> length docs = length names).

End Queries.

End StoreQueries.

(** ** Scheduled jobs ([startCron], [stopCron]) *)

Module Cron.

(** The two module variables, each [null] or a task of the scheduler
    library, and the library's side: which tasks are running and the
    next task it will hand out. *)
Record state := mkState {
  collectionCron : option nat;
  analysisCron : option nat;
  running : gset nat;
  next : nat
}.

Definition initial : state :=
  {| collectionCron := None; analysisCron := None; running := ∅; next := 0 |}.

(** [task.stop()]. *)
Definition stop (task : nat) (s : state) : state :=
  {| collectionCron := collectionCron s; analysisCron := analysisCron s;
     running := running s ∖ {[task]}; next := next s |}.

Definition stopCron (s : state) : state :=
  let s1 := match collectionCron s with
            | Some task =>
                {| collectionCron := None; analysisCron := analysisCron s;
                   running := running (stop task s); next := next s |}
            | None => s
            end in
  match analysisCron s1 with
  | Some task =>
      {| collectionCron := collectionCron s1; analysisCron := None;
         running := running (stop task s1); next := next s1 |}
  | None => s1
  end.

(** [cron.schedule(...)] with [scheduled: true]: a new running task. *)
Definition schedule (s : state) : nat * state :=
  (next s,
   {| collectionCron := collectionCron s; analysisCron := analysisCron s;
      running := {[next s]} ∪ running s; next := S (next s) |}).

Definition startCron (s : state) : state :=
  let s0 := stopCron s in
  let (c, s1) := schedule s0 in
  let s2 := {| collectionCron := Some c; analysisCron := analysisCron s1;
               running := running s1; next := next s1 |} in
  let (a, s3) := schedule s2 in
  {| collectionCron := collectionCron s3; analysisCron := Some a;
     running := running s3; next := next s3 |}.

(** A call of one of the two exported functions. *)
Inductive call := Start | Stop.

Definition step (s : state) (c : call) : state :=
  match c with
  | Start => startCron s
  | Stop => stopCron s
  end.

(** *** Vocabulary of the properties *)

(** The tasks the two variables hold. *)
Definition held (s : state) : gset nat :=
  match collectionCron s with Some t => {[t]} | None => ∅ end ∪
  match analysisCron s with Some t => {[t]} | None => ∅ end.

End Cron.

(** ** The pipeline ([runCollection], [runAnalysis], [runFull]) *)

Module Pipeline.
Import JS.

Section Pipeline.

(** The statistics are opaque to the pipeline: it stores and returns
    what [getSignalStats] gives, or passes on what it raises. *)
Context {Stats : Type} (getSignalStats : list Signals.Signal -> result Stats).

(** The time values of dates, as for [normalizeAll]. *)
Context (dateValue : json -> option Z).

(** The clustering step: the narratives the classifier finds in the
    signals, or the failure of its call. *)
Context (clusterNarratives : list Signals.Signal
                             -> BuildIdeas.failure + list Scoring.Narrative).

(** The replies to the prompts for build ideas. *)
Context (askGrok : nat -> Scoring.Scored -> BuildIdeas.reply).

(** What the store holds in this pipeline; the metadata of a signal
    snapshot is [{ stats, dayRange }]. *)
Definition pipelineFile : Type :=
  Store.file Signals.Signal (BuildIdeas.Enriched Scoring.Scored) Stats (Stats * Z).

Definition pipelineEffect : Type :=
  Store.effect Signals.Signal (BuildIdeas.Enriched Scoring.Scored) Stats (Stats * Z).

(** A run yields the effects it had on the store, in order, and either
    its value or the failure it ended in. *)
Definition outcome (A : Type) : Type := list pipelineEffect * (BuildIdeas.failure + A).

(** [clock] is read while the records are normalized, [now] and [now']
    while the snapshot is saved. The result is [{ signals, stats }]. *)
Definition runCollection (dayRange : Z) (clock : nat -> string) (now now' : string)
    (socialResult onchainResult githubResult researchResult : Scheduler.settled)
  : outcome (list Signals.Signal * Stats) :=
  let allRawSignals :=
    Scheduler.allRawSignals
      (Scheduler.collect socialResult onchainResult githubResult researchResult) in
  match Signals.normalizeAll dateValue clock allRawSignals with
  | Throw e => ([], inl (BuildIdeas.Raised e))
  | Ok signals =>
      match getSignalStats signals with
      | Throw e => ([], inl (BuildIdeas.Raised e))
      | Ok stats =>
          ((Store.saveSignals now now' signals (stats, dayRange)).1, inr (signals, stats))
      end
  end.

(** The steps of [runAnalysis] once it has its signals. The result is
    [{ narratives, stats }]. *)
Definition analyse (now now' : string) (signals : list Signals.Signal)
  : outcome (list (BuildIdeas.Enriched Scoring.Scored) * option Stats) :=
  match getSignalStats signals with
  | Throw e => ([], inl (BuildIdeas.Raised e))
  | Ok stats =>
      match clusterNarratives signals with
      | inl f => ([], inl f)
      | inr rawNarratives =>
          let scored := Scoring.scoreNarratives Signals.topics rawNarratives signals in
          let narratives := BuildIdeas.generateBuildIdeas askGrok scored in
          ((Store.saveNarratives now now' narratives stats).1, inr (narratives, Some stats))
      end
  end.

(** [signals] is [None] for a call without argument; [d] is the store
    at the time of the call. Without signals and without a latest signal
    snapshot the result is [{ narratives: [], stats: {} }]. *)
Definition runAnalysis (now now' : string) (signals : option (list Signals.Signal))
    (d : gmap string pipelineFile)
  : outcome (list (BuildIdeas.Enriched Scoring.Scored) * option Stats) :=
  match signals with
  | Some signals => analyse now now' signals
  | None =>
      match Store.loadLatestSignals d with
      | Some (Store.SignalFile latest) => analyse now now' (Store.signals latest)
      | _ => ([], inr ([], None))
      end
  end.

(** [clock], [now1], [now1'] are read by the collection and [now2],
    [now2'] by the analysis. The result is [{ signals, ...result }]. *)
Definition runFull (dayRange : Z) (clock : nat -> string) (now1 now1' now2 now2' : string)
    (socialResult onchainResult githubResult researchResult : Scheduler.settled)
    (d : gmap string pipelineFile)
  : outcome (list Signals.Signal * (list (BuildIdeas.Enriched Scoring.Scored) * option Stats)) :=
  match runCollection dayRange clock now1 now1'
          socialResult onchainResult githubResult researchResult with
  | (es1, inl f) => (es1, inl f)
  | (es1, inr (signals, _)) =>
      match runAnalysis now2 now2' (Some signals) (Store.run es1 d) with
      | (es2, inl f) => (es1 ++ es2, inl f)
      | (es2, inr result) => (es1 ++ es2, inr (signals, result))
      end
  end.

End Pipeline.

End Pipeline.

(** ** The signals endpoint ([GET /api/signals]) *)

Module Api.
Import JS Signals Store StoreQueries.

Section Api.
Context {Narrative Stats Meta : Type}.

(** The body the handler sends with [res.json]: the message that there
    are no signals yet, or the latest signals with what the document has
    under [timestamp] and [signalCount] and the number returned. *)
Inductive signalsBody :=
  | nothingYet
  | latestSignals (timestamp total : json) (returned : nat) (signals : list Signal).

(** [own] gives the own properties of the metadata of a document.
    [source] is [req.query.source] where the parameter is given (once,
    so as a string); [limit] is the value of [parseInt(req.query.limit)],
    [None] for [NaN]. A latest file without [signals] makes the handler
    raise. *)
Definition getSignals (own : Meta -> string -> option json)
    (source : option string) (limit : option Z)
    (d : gmap string (file Signal Narrative Stats Meta)) : result signalsBody :=
  match loadLatestSignals d with
  | None | Some Unreadable => Ok nothingYet
  | Some (NarrativeFile _) => Throw TypeError
  | Some (SignalFile data) =>
      let signals := Store.signals data in
      let signals :=
        match source with
        | Some src =>
            if String.eqb src "" then signals
            else List.filter (fun s => is_str (Some (Signals.source s)) src) signals
        | None => signals
        end in
      let limit := match limit with
                   | Some n => if n =? 0 then 100 else n
                   | None => 100
                   end in
      let signals := slice0 limit signals in
      Ok (latestSignals (timestampOf own data) (signalCountOf own data)
                        (length signals) signals)
  end.

End Api.

End Api.

(** ** Variations of a narrative *)

Module Vary.
Import JS Scoring.

(** [n] with another list of sources. *)
Definition withSources (sources : option (list string)) (n : Narrative) : Narrative :=
  {| n_id := n_id n; n_name := n_name n; n_description := n_description n;
     n_evidence := n_evidence n; n_sources := sources; n_topics := n_topics n;
     n_stage := n_stage n; n_confidence := n_confidence n; n_velocity := n_velocity n |}.

(** [n] with another list of topics. *)
Definition withTopics (topics : option (list string)) (n : Narrative) : Narrative :=
  {| n_id := n_id n; n_name := n_name n; n_description := n_description n;
     n_evidence := n_evidence n; n_sources := n_sources n; n_topics := topics;
     n_stage := n_stage n; n_confidence := n_confidence n; n_velocity := n_velocity n |}.

End Vary.

(** ** Sample data *)

Module Examples.
Import JS Signals Scoring.

(** A signal with the given topics and the defaults everywhere else. *)
Definition topical (id : string) (ts : list string) : Signal :=
  {| sig_id := id;
     source := JStr "social";
     subSource := JStr "kol";
     title := JStr "Untitled Signal";
     text := JStr "";
     url := JNull;
     date := JStr "2026-02-01T06:00:00.000Z";
     collectedAt := JStr "2026-02-01T06:00:00.000Z";
     topics := ts;
     sentiment := JStr "neutral";
     signalType := JStr "kol_signal";
     engagement := JNull;
     stars := JNull;
     marketCap := JNull;
     username := JNull;
     ticker := JNull;
     address := JNull;
     keyInsight := JNull;
     dataPoint := JNull |}.

(** Five signals; all but the last share a topic with [agents] below. *)
Definition fiveSignals : list Signal :=
  [topical "sig_1" ["ai"];
   topical "sig_2" ["depin"; "infra"];
   topical "sig_3" ["AI"];
   topical "sig_4" ["DePin"];
   topical "sig_5" ["gaming"]].

Definition agents : Narrative :=
  {| n_id := "ai_agents";
     n_name := "AI agents on Solana";
     n_description := "Autonomous agents that transact on chain";
     n_evidence := Some ["KOL posts"; "new repositories"; "token launches"];
     n_sources := Some ["social"; "onchain"];
     n_topics := Some ["AI"; "DePIN"];
     n_stage := Some "emerging";
     n_confidence := Some (8 # 10)%Q;
     n_velocity := Some "rising" |}.

(** The same cluster reported a second time under another id. *)
Definition agentsAgain : Narrative :=
  {| n_id := "ai_agents_2";
     n_name := n_name agents;
     n_description := n_description agents;
     n_evidence := n_evidence agents;
     n_sources := n_sources agents;
     n_topics := n_topics agents;
     n_stage := n_stage agents;
     n_confidence := n_confidence agents;
     n_velocity := n_velocity agents |}.

(** A cluster the classifier has no confidence in. *)
Definition doubtful : Narrative :=
  {| n_id := "rumour";
     n_name := "Rumour";
     n_description := "One unverified post";
     n_evidence := Some ["one post"];
     n_sources := Some ["social"];
     n_topics := Some ["rumour"];
     n_stage := Some "maturing";
     n_confidence := Some 0%Q;
     n_velocity := Some "declining" |}.

(** The clock of the samples: one instant for every reading. *)
Definition noon : string := "2026-02-01T12:00:00.000Z".

(** Two listings of one repository that differ in their star count. *)
Definition repoThen : json :=
  JObj [("source", JStr "github"); ("subSource", JStr "new_repos");
        ("name", JStr "xona-labs/radar"); ("stars", JNum 12);
        ("topics", JArr [JStr "Solana"; JStr "AI agents"])].

Definition repoNow : json :=
  JObj [("source", JStr "github"); ("subSource", JStr "new_repos");
        ("name", JStr "xona-labs/radar"); ("stars", JNum 57);
        ("topics", JArr [JStr "Solana"; JStr "AI agents"])].

(** A post with nothing but its text. *)
Definition barePost : json := JObj [("text", JStr "gm Solana")].

(** A post whose text came back from the model as a number. *)
Definition numericText : json := JObj [("source", JStr "social"); ("text", JNum 5)].

(** Two trending tokens as the on-chain adapter reports them: a name,
    no url, an empty description. *)
Definition tokenAlpha : json :=
  JObj [("source", JStr "onchain"); ("subSource", JStr "pumpfun_trending");
        ("name", JStr "Alpha"); ("ticker", JStr "ALP"); ("marketCap", JNum 0);
        ("description", JStr ""); ("topics", JArr [JStr "pumpfun"; JStr "memecoin"]);
        ("collectedAt", JStr noon)].

Definition tokenBeta : json :=
  JObj [("source", JStr "onchain"); ("subSource", JStr "pumpfun_trending");
        ("name", JStr "Beta"); ("ticker", JStr "BET"); ("marketCap", JNum 0);
        ("description", JStr ""); ("topics", JArr [JStr "pumpfun"; JStr "memecoin"]);
        ("collectedAt", JStr noon)].

(** Two repositories as the GitHub adapter reports them, with their url. *)
Definition repoA : json :=
  JObj [("source", JStr "github"); ("subSource", JStr "trending_repos");
        ("name", JStr "xona-labs/radar"); ("url", JStr "https://github.com/xona-labs/radar");
        ("stars", JNum 57); ("topics", JArr [JStr "solana"])].

Definition repoB : json :=
  JObj [("source", JStr "github"); ("subSource", JStr "trending_repos");
        ("name", JStr "xona-labs/agent"); ("url", JStr "https://github.com/xona-labs/agent");
        ("stars", JNum 21); ("topics", JArr [JStr "solana"])].

(** A later reading of the clock. *)
Definition later : string := "2026-02-15T08:00:00.000Z".

(** A file of the samples holds signals, scored narratives, and
    statistics and metadata as JSON. *)
Definition sampleFile : Type := Store.file Signal Scored json json.

(** A reading of dates for the samples: a number is its own time value;
    nothing else is given one. *)
Definition numericDate (v : json) : option Z :=
  match v with
  | JNum n => Some n
  | _ => None
  end.

End Examples.

(** ** More sample data *)

Module MoreSamples.
Import JS Signals Scoring Examples.

(** Two tokens whose names differ in two letters; they have no url, so
    the name is what identifies them. *)
Definition tokenAa : list (string * json) :=
  [("source", JStr "onchain"); ("subSource", JStr "pumpfun_trending");
   ("name", JStr "TokenAa"); ("ticker", JStr "TAA")].

Definition tokenBB : list (string * json) :=
  [("source", JStr "onchain"); ("subSource", JStr "pumpfun_trending");
   ("name", JStr "TokenBB"); ("ticker", JStr "TBB")].

(** Two posts with numeric dates, the older one listed first. *)
Definition olderPost : json :=
  JObj [("source", JStr "social"); ("subSource", JStr "kol");
        ("text", JStr "restaking is coming"); ("date", JNum 100)].

Definition newerPost : json :=
  JObj [("source", JStr "social"); ("subSource", JStr "kol");
        ("text", JStr "restaking is here"); ("date", JNum 200)].

(** A topic list with repetitions that differ in case and spacing. *)
Definition mixedTopics : json :=
  JArr [JStr "Solana"; JStr " AI agents "; JStr "solana"; JStr ""; JStr "ai agents"].

(** A reply with two ideas, the second one empty. *)
Definition twoIdeas : BuildIdeas.reply :=
  BuildIdeas.answered
    (JObj [("ideas", JArr [JObj [("name", JStr "Agent wallet"); ("difficulty", JStr "hard")];
                           JObj []])]).

(** A reply with a good idea and a [null]. *)
Definition nullIdea : list (string * json) :=
  [("ideas", JArr [JObj [("name", JStr "Agent wallet")]; JNull])].

(** Statistics for the samples: the number of signals. *)
Definition countStats (signals : list Signal) : result nat := Ok (length signals).

(** A classifier that finds the two sample narratives, and one whose
    call fails. *)
Definition twoClusters (signals : list Signal) : BuildIdeas.failure + list Narrative :=
  inr [doubtful; agents].

Definition noClusters (signals : list Signal) : BuildIdeas.failure + list Narrative :=
  inl (BuildIdeas.Rejected "503").

(** The metadata of a collection, as JSON. *)
Definition collectionMeta : json := JObj [("stats", JObj []); ("dayRange", JNum 14)].

(** A store of the pipeline with nothing in it. *)
Definition emptyStore : gmap string (Pipeline.pipelineFile (Stats := nat)) := ∅.

End MoreSamples.

(** * Properties *)

(** ** The stable sort *)

Section SortFacts.
Context {A : Type} (key : A -> Z).


Lemma insert_perm (cmp : A -> A -> Z) x l : JS.insert cmp x l ≡ₚ x :: l.
Proof.
  induction l as [|y r IH]; simpl; [done|].
  destruct (cmp x y <=? 0); [done|].
  rewrite IH. apply Permutation_swap.
Qed.

Lemma sort_perm (cmp : A -> A -> Z) l : JS.sort cmp l ≡ₚ l.
Proof.
  induction l as [|x r IH]; simpl; [done|].
  by rewrite insert_perm, IH.
Qed.

Lemma insert_sorted x l :
  Sorted (fun a b => key b <= key a) l ->
  Sorted (fun a b => key b <= key a) (JS.insert (fun a b => key b - key a) x l).
Proof.
  induction 1 as [|y r Hr IH Hhd]; simpl.
  - repeat constructor.
  - cbn beta. destruct (Z.leb_spec (key y - key x) 0) as [Hle|Hgt].
    + constructor; [by constructor|]. constructor. lia.
    + constructor; [exact IH|].
      destruct r as [|z r']; simpl.
      * constructor. lia.
      * cbn beta. destruct (key z - key x <=? 0); constructor; [lia|].
        by inversion Hhd.
Qed.

Lemma sort_sorted l : Sorted (fun a b => key b <= key a) (JS.sort (fun a b => key b - key a) l).
Proof. induction l; simpl; [constructor|by apply insert_sorted]. Qed.

(** Stability: the elements of one key keep their order. *)
Lemma insert_stable v x l :
  filter (fun a => key a = v) (JS.insert (fun a b => key b - key a) x l) = filter (fun a => key a = v) (x :: l).
Proof.
  induction l as [|y r IH]; simpl; [done|].
  cbn beta. destruct (Z.leb_spec (key y - key x) 0) as [Hle|Hgt]; [done|].
  rewrite !filter_cons in *.
  repeat case_decide; try lia; congruence.
Qed.

Lemma sort_stable v l :
  filter (fun a => key a = v) (JS.sort (fun a b => key b - key a) l) = filter (fun a => key a = v) l.
Proof.
  induction l as [|x r IH]; simpl; [done|].
  rewrite insert_stable, !filter_cons, IH. done.
Qed.

Lemma Sorted_map_key l :
  Sorted (fun a b => key b <= key a) l -> Sorted (fun x y => y <= x) (map key l).
Proof.
  induction 1 as [|x r Hr IH Hhd]; simpl; [constructor|].
  constructor; [exact IH|]. destruct Hhd; constructor. done.
Qed.

Lemma Sorted_adjacent (R : A -> A -> Prop) l i a b :
  Sorted R l -> l !! i = Some a -> l !! S i = Some b -> R a b.
Proof.
  intros Hs. revert i. induction Hs as [|x r Hr IH Hhd]; intros i Ha Hb; [done|].
  destruct i as [|i]; simpl in *.
  - simplify_eq. destruct r; simplify_eq/=. by inversion Hhd.
  - eauto.
Qed.

End SortFacts.

(** ** The scoring engine *)

Section ScoringFacts.
Import JS Scoring.
Context {Signal : Type} (topics : Signal -> list string).


Lemma values_sum s : fold_left Z.add (values s) 0 = sumOfSix s.
Proof. unfold values, sumOfSix. simpl. lia. Qed.

Lemma num_or_range v d :
  (0 <= d <= 1)%Q -> (forall c, v = Some c -> (0 <= c <= 1)%Q) ->
  (0 <= num_or v d <= 1)%Q.
Proof.
  intros Hd Hv. unfold num_or. destruct v as [q|]; [|done].
  destruct (Qeq_bool q 0); [done|]. by apply Hv.
Qed.

Lemma Math_round_le_10 q : (q <= 1)%Q -> Math_round (q * 10) <= 10.
Proof.
  intros Hq. unfold Math_round.
  change 10 with (Qfloor (21 # 2)) at 2.
  apply Qfloor_resp_le.
  destruct q as [a b]. unfold Qle in *. simpl in *. lia.
Qed.

Lemma computeScores_maxima n signals :
  confidenceInRange n -> withinMaxima (computeScores topics n signals).
Proof.
  intros Hc. unfold withinMaxima, computeScores. simpl.
  repeat split; try lia.
  - destruct (strict_eq (n_velocity n) "rising"); [lia|].
    destruct (strict_eq (n_velocity n) "stable"); lia.
  - destruct (strict_eq (n_stage n) "emerging"); [lia|].
    destruct (strict_eq (n_stage n) "accelerating"); lia.
  - apply Math_round_le_10.
    apply (num_or_range (n_confidence n) (1 # 2)); [|exact Hc].
    split; discriminate.
Qed.

(** Every element of the output is a scored input with its rank set. *)
Lemma scoreNarratives_elem r ns signals :
  r ∈ scoreNarratives topics ns signals ->
  exists i n, n ∈ ns /\ r = setRank i (scoreOne topics signals n).
Proof.
  unfold scoreNarratives, assignRanks. intros Hr.
  apply elem_of_lookup_imap_1 in Hr as (i & y & -> & Hy).
  apply list_elem_of_lookup_2 in Hy. rewrite sort_perm in Hy.
  apply list_elem_of_fmap in Hy as (n & -> & Hn). eauto.
Qed.

Lemma map_narrative_assignRanks l : map narrative (assignRanks l) = map narrative l.
Proof.
  unfold assignRanks. apply list_eq. intros i.
  rewrite !list_lookup_fmap, list_lookup_imap.
  by destruct (l !! i).
Qed.

Lemma map_totalScore_assignRanks l : map totalScore (assignRanks l) = map totalScore l.
Proof.
  unfold assignRanks. apply list_eq. intros i.
  rewrite !list_lookup_fmap, list_lookup_imap.
  by destruct (l !! i).
Qed.

(** C1. When every confidence that is present lies in [0,1], each of the
    six sub-scores of every scored narrative is within its documented
    maximum (30, 25, 20, 15, 10, 10), the scores are those computed for
    that narrative, and [totalScore] is exactly their sum, so at most 110. *)
Theorem C1_score_bounds (ns : list Narrative) (signals : list Signal) :
  Forall confidenceInRange ns ->
  Forall (fun r =>
            scores r = computeScores topics (narrative r) signals /\
            withinMaxima (scores r) /\
            totalScore r = sumOfSix (scores r) /\
            totalScore r <= 110)
         (scoreNarratives topics ns signals).
Proof.
  intros Hns. apply Forall_forall. intros r Hr.
  apply scoreNarratives_elem in Hr as (i & n & Hn & ->).
  rewrite Forall_forall in Hns. specialize (Hns n Hn).
  pose proof (computeScores_maxima n signals Hns) as Hmax.
  cbn [setRank scoreOne scores totalScore narrative].
  rewrite values_sum.
  repeat split; try apply Hmax.
  unfold withinMaxima, sumOfSix in *. lia.
Qed.

(** C2. The output is in descending order of [totalScore];
    the sort is stable (the narratives of one total keep their input
    order); and the element at index [i] has rank [i + 1], so the ranks
    are 1, 2, 3, ... without gaps, ties included. *)
Theorem C2_sorted_stable_ranked (ns : list Narrative) (signals : list Signal) :
  let out := scoreNarratives topics ns signals in
  (forall i a b, out !! i = Some a -> out !! S i = Some b -> totalScore a >= totalScore b) /\
  (forall v,
     filter (fun n => totalScore (scoreOne topics signals n) = v) (map narrative out)
     = filter (fun n => totalScore (scoreOne topics signals n) = v) ns) /\
  (forall i a, out !! i = Some a -> rank a = Z.of_nat i + 1).
Proof.
  cbn zeta. unfold scoreNarratives. repeat split.
  - intros i a b Ha Hb.
    assert (Hs : Sorted (fun x y => y <= x)
                   (map totalScore (sort compareFn (map (scoreOne topics signals) ns)))).
    { apply Sorted_map_key, sort_sorted. }
    rewrite <- map_totalScore_assignRanks in Hs.
    apply Z.le_ge.
    apply (Sorted_adjacent (fun x y => y <= x) _ i (totalScore a) (totalScore b) Hs).
    + by rewrite list_lookup_fmap, Ha.
    + by rewrite list_lookup_fmap, Hb.
  - intros v. rewrite map_narrative_assignRanks.
    pose proof (sort_stable totalScore v (map (scoreOne topics signals) ns)) as Hst.
    assert (Hm : forall l : list Scored,
               Forall (fun r => r = scoreOne topics signals (narrative r)) l ->
               filter (fun n => totalScore (scoreOne topics signals n) = v) (map narrative l)
               = map narrative (filter (fun r => totalScore r = v) l)).
    { induction 1 as [|x l Hx Hl IH]; [done|].
      cbn [map]. rewrite !filter_cons, IH, <- Hx.
      by case_decide. }
    rewrite Hm.
    + change (sort compareFn) with (sort (fun a b : Scored => totalScore b - totalScore a)).
      rewrite Hst. rewrite <- Hm.
      * f_equal. rewrite <- list_fmap_compose. by apply list_fmap_id.
      * apply Forall_forall. intros x Hx.
        apply list_elem_of_fmap in Hx as (n & -> & _). done.
    + apply Forall_forall. intros x Hx. rewrite sort_perm in Hx.
      apply list_elem_of_fmap in Hx as (n & -> & _). done.
  - intros i a Ha. unfold assignRanks in Ha.
    rewrite list_lookup_imap in Ha.
    destruct (sort compareFn (map (scoreOne topics signals) ns) !! i); by simplify_eq/=.
Qed.

(** C10. The output is a permutation of the input: the narratives the
    output elements carry are, up to order, exactly the input narratives,
    each with all of its fields; what an element adds is [scores],
    [totalScore], [matchingSignalCount] and [rank], as computed for the
    narrative it carries. *)
Theorem C10_frame (ns : list Narrative) (signals : list Signal) :
  map narrative (scoreNarratives topics ns signals) ≡ₚ ns /\
  length (scoreNarratives topics ns signals) = length ns /\
  (forall i r, scoreNarratives topics ns signals !! i = Some r ->
     r = {| narrative := narrative r;
            scores := computeScores topics (narrative r) signals;
            totalScore := sumOfSix (computeScores topics (narrative r) signals);
            matchingSignalCount :=
              Z.of_nat (length (matchingSignals topics (narrative r) signals));
            rank := Z.of_nat i + 1 |}).
Proof.
  assert (Hp : map narrative (scoreNarratives topics ns signals) ≡ₚ ns).
  { unfold scoreNarratives. rewrite map_narrative_assignRanks, sort_perm.
    rewrite <- list_fmap_compose. by rewrite list_fmap_id. }
  split; [exact Hp|]. split.
  - apply Permutation_length in Hp. by rewrite length_map in Hp.
  - intros i r Hr. unfold scoreNarratives, assignRanks in Hr.
    rewrite list_lookup_imap in Hr.
    destruct (sort compareFn (map (scoreOne topics signals) ns) !! i) as [y|] eqn:Hy;
      [|done].
    apply list_elem_of_lookup_2 in Hy. rewrite sort_perm in Hy.
    apply list_elem_of_fmap in Hy as (n & -> & _).
    injection Hr as <-. unfold setRank, scoreOne.
    cbn [narrative scores totalScore matchingSignalCount rank].
    by rewrite values_sum.
Qed.


(** The confidence sub-score of a confidence that is present and not 0. *)
Lemma confidence_present n signals c :
  n_confidence n = Some c -> ~ (c == 0)%Q ->
  confidence (computeScores topics n signals) = Math_round (c * 10).
Proof.
  intros Hn Hc. unfold computeScores, num_or. cbn [confidence]. rewrite Hn.
  destruct (Qeq_bool c 0) eqn:E; [|done].
  by apply Qeq_bool_iff in E.
Qed.

(** The confidence sub-score when the field is missing. *)
Lemma confidence_absent n signals :
  n_confidence n = None -> confidence (computeScores topics n signals) = 5.
Proof. intros Hn. unfold computeScores, num_or. cbn [confidence]. by rewrite Hn. Qed.

(** A confidence of 0 is replaced by the default as well. *)
Lemma confidence_zero n signals c :
  n_confidence n = Some c -> (c == 0)%Q ->
  confidence (computeScores topics n signals) = 5.
Proof.
  intros Hn Hc. unfold computeScores, num_or. cbn [confidence]. rewrite Hn.
  apply Qeq_bool_iff in Hc. by rewrite Hc.
Qed.

(** C3. One narrative with sources social and onchain, three evidence
    points, velocity rising, stage emerging and confidence 0.8, scored
    against five signals of which four share a topic with it, gets the
    sub-scores 16, 24, 20, 15, 8, 2 and the total 85. *)
Theorem C3_scenario (n : Narrative) (signals : list Signal) (ev : list string) (c : Q) :
  n_sources n = Some ["social"; "onchain"] ->
  n_evidence n = Some ev -> length ev = 3%nat ->
  n_velocity n = Some "rising" ->
  n_stage n = Some "emerging" ->
  n_confidence n = Some c -> (c == 8 # 10)%Q ->
  length signals = 5%nat ->
  length (matchingSignals topics n signals) = 4%nat ->
  scoreNarratives topics [n] signals =
    [ {| narrative := n;
         scores := {| crossSource := 16; evidence := 24; velocity := 20;
                      stage := 15; confidence := 8; signalCount := 2 |};
         totalScore := 85;
         matchingSignalCount := 4;
         rank := 1 |} ].
Proof.
  intros Hsrc Hev Hlen Hvel Hst Hc Hc8 _ Hm.
  assert (Hconf : confidence (computeScores topics n signals) = 8).
  { rewrite (confidence_present n signals c Hc).
    - unfold Math_round. rewrite Hc8. reflexivity.
    - rewrite Hc8. discriminate. }
  unfold scoreNarratives, assignRanks, scoreOne. cbn [map sort insert imap setRank].
  cbn [narrative scores totalScore matchingSignalCount rank].
  assert (Hs : computeScores topics n signals =
               {| crossSource := 16; evidence := 24; velocity := 20;
                  stage := 15; confidence := 8; signalCount := 2 |}).
  { revert Hconf. unfold computeScores. cbn [confidence]. intros ->.
    unfold uniqueSources. rewrite Hsrc, Hev, Hvel, Hst, Hm. cbn [or_empty].
    rewrite Hlen. reflexivity. }
  rewrite Hs, Hm. reflexivity.
Qed.

End ScoringFacts.

Section ScoringExamples.
Import JS Scoring Examples.

(** C1 on two sample narratives, one of them with confidence 0. *)
Lemma C1_score_bounds_witness :
  Forall confidenceInRange [agents; doubtful] /\
  Forall (fun r =>
            scores r = computeScores Signals.topics (narrative r) fiveSignals /\
            withinMaxima (scores r) /\
            totalScore r = sumOfSix (scores r) /\
            totalScore r <= 110)
         (scoreNarratives Signals.topics [agents; doubtful] fiveSignals).
Proof.
  assert (H : Forall confidenceInRange [agents; doubtful]).
  { constructor; [|constructor; [|constructor]];
      intros c Hc; injection Hc as <-; split; discriminate. }
  split; [exact H|].
  exact (C1_score_bounds Signals.topics [agents; doubtful] fiveSignals H).
Defined.

(** C2 with shared ranks: two narratives with the same total get the
    ranks 1 and 2, not one rank. *)
Lemma C2_ties_get_distinct_ranks :
  ~ tiesShareRank (scoreNarratives Signals.topics [agents; agentsAgain] fiveSignals).
Proof.
  intros H.
  assert (Hout : exists a b,
             scoreNarratives Signals.topics [agents; agentsAgain] fiveSignals = [a; b] /\
             totalScore a = totalScore b /\ rank a = 1 /\ rank b = 2).
  { eexists _, _. split; [reflexivity|]. repeat split. }
  destruct Hout as (a & b & Hout & Ht & Ha & Hb).
  rewrite Hout in H.
  specialize (H a b). rewrite Ha, Hb in H.
  discriminate H; [left | right; left | exact Ht].
Qed.

(** C3 on the sample narrative and the five sample signals. *)
Lemma C3_scenario_witness :
  scoreNarratives Signals.topics [agents] fiveSignals =
    [ {| narrative := agents;
         scores := {| crossSource := 16; evidence := 24; velocity := 20;
                      stage := 15; confidence := 8; signalCount := 2 |};
         totalScore := 85;
         matchingSignalCount := 4;
         rank := 1 |} ].
Proof.
  apply (C3_scenario Signals.topics agents fiveSignals
           ["KOL posts"; "new repositories"; "token launches"] (8 # 10));
    reflexivity.
Defined.

(** C4 at confidence 0: the confidence is present and in range, yet
    the sub-score is that of the default 0.5, not [round(0 * 10)]. *)
Lemma C4_zero_confidence_scores_five :
  n_confidence doubtful = Some 0%Q /\
  confidence (computeScores Signals.topics doubtful fiveSignals) = 5 /\
  Math_round (0 * 10) = 0.
Proof. repeat split. Qed.

End ScoringExamples.

(** ** The normalizer *)

Section NormalizerFacts.
Import JS Signals Shape.

Lemma ToString_scalar v : isScalar v = true -> exists s, ToString v = Ok s.
Proof. destruct v as [|[]| | | |]; simpl; intros; by eauto. Qed.

Lemma isScalar_ord o d : optScalar o = true -> isScalar d = true -> isScalar (ord o d) = true.
Proof. destruct o as [v|]; simpl; [|done]. by destruct (truthy v). Qed.

Lemma joinItems_scalars l :
  forallb isScalar l = true -> exists ss, joinItems l = Ok ss.
Proof.
  induction l as [|x r IH]; simpl; [by eauto|].
  intros [Hx Hr]%andb_prop. destruct (IH Hr) as [ss Hss]. rewrite Hss.
  destruct (ToString_scalar x Hx) as [sx Ex].
  destruct x; simpl in *; simplify_eq; rewrite ?Ex; simpl; eauto.
Qed.

Lemma idKey_total raw :
  optString (prop raw "text") = true -> optScalar (prop raw "url") = true ->
  optScalar (prop raw "name") = true ->
  exists k, idKey raw = Ok k /\ isScalar k = true.
Proof.
  unfold idKey, textPrefix, or_else, oro, ord.
  destruct (prop raw "text") as [[]|], (prop raw "url") as [[]|],
    (prop raw "name") as [[]|]; simpl; intros; try done;
    repeat case_match; simplify_eq/=; eauto.
Qed.

Lemma generateId_total raw :
  wellTyped raw = true -> exists id, generateId raw = Ok id.
Proof.
  intros H.
  assert (Hn : raw <> JNull) by (by destruct raw).
  assert (H' : optString (prop raw "text") && optString (prop raw "subSource") &&
               optScalar (prop raw "source") && optScalar (prop raw "url") &&
               optScalar (prop raw "name") && optScalar (prop raw "ticker") &&
               optTags (prop raw "topics") = true) by (by destruct raw).
  repeat (apply andb_prop in H' as [H' ?]).
  destruct (idKey_total raw) as (k & Hk & Hsk); [done..|].
  assert (Hsub : optScalar (prop raw "subSource") = true).
  { by destruct (prop raw "subSource") as [[]|]. }
  destruct (joinItems_scalars
              [ord (prop raw "source") (JStr ""); ord (prop raw "subSource") (JStr ""); k])
    as [ss Hss].
  { cbn [forallb]. rewrite !isScalar_ord, Hsk by done. done. }
  unfold generateId, deref, join. rewrite Hk. cbn [mbind result_bind]. rewrite Hss.
  destruct raw; [done|..]; simpl; eauto.
Qed.

Lemma or_else_total a b :
  (exists v, b = Ok v) -> exists v, or_else a b = Ok v.
Proof. intros [v ->]. destruct a as [x|]; simpl; [destruct (truthy x)|]; eauto. Qed.

Lemma extractTitle_total raw :
  raw <> JNull -> optString (prop raw "text") = true ->
  optScalar (prop raw "ticker") = true ->
  exists t, extractTitle raw = Ok t.
Proof.
  intros Hn Ht Hk.
  assert (E : extractTitle raw =
    match oro (prop raw "name") None with
    | Some name => Ok name
    | None =>
        match oro (prop raw "text") None with
        | Some (JStr s) => Ok (JStr (trim (prefix 100 s)))
        | Some _ => Throw TypeError
        | None =>
            match oro (prop raw "ticker") None with
            | Some t => s ← ToString t; Ok (JStr ("$" +:+ s))
            | None => Ok (JStr "Untitled Signal")
            end
        end
    end) by (by destruct raw).
  rewrite E. clear E.
  assert (Hrest : exists t,
    match oro (prop raw "text") None with
    | Some (JStr s) => Ok (JStr (trim (prefix 100 s)))
    | Some _ => Throw TypeError
    | None =>
        match oro (prop raw "ticker") None with
        | Some t => s ← ToString t; Ok (JStr ("$" +:+ s))
        | None => Ok (JStr "Untitled Signal")
        end
    end = Ok t).
  { assert (Htick : exists t,
      match oro (prop raw "ticker") None with
      | Some t => s ← ToString t; Ok (JStr ("$" +:+ s))
      | None => Ok (JStr "Untitled Signal")
      end = Ok t).
    { unfold oro. destruct (prop raw "ticker") as [k|]; [|by eauto].
      destruct (truthy k); [|by eauto].
      destruct (ToString_scalar k Hk) as [sk ->]. simpl. eauto. }
    unfold oro at 1.
    destruct (prop raw "text") as [[]|]; simpl in Ht |- *; try done.
    destruct (negb (String.eqb s "")); eauto. }
  unfold oro at 1.
  destruct (prop raw "name") as [v|]; [|done].
  destruct (truthy v); [by eauto|done].
Qed.

Lemma normalizeTopics_scalars l :
  forallb isScalar l = true -> exists ss, normalizeTopics l = Ok ss.
Proof.
  induction l as [|x r IH]; simpl; [by eauto|].
  intros [Hx Hr]%andb_prop. destruct (IH Hr) as [ss ->].
  destruct (ToString_scalar x Hx) as [sx ->]. simpl. eauto.
Qed.

Lemma dedupeTopics_total o :
  optTags o = true -> exists ts, dedupeTopics (ord o (JArr [])) = Ok ts.
Proof.
  intros Ho. unfold ord. destruct o as [v|]; [|simpl; by eauto].
  destruct (truthy v); [|simpl; by eauto].
  destruct v; simpl in *; try by eauto.
  destruct (normalizeTopics_scalars l Ho) as [ss ->]. simpl. eauto.
Qed.

Lemma classifySignalType_total raw :
  raw <> JNull -> optString (prop raw "subSource") = true ->
  exists t, classifySignalType raw = Ok t.
Proof.
  intros Hn Hs. unfold classifySignalType.
  assert (Hd : forall A (k : result A), deref raw k = k) by (by destruct raw).
  rewrite Hd. unfold lazy_orb, includes_opt.
  destruct (prop raw "subSource") as [[]|]; simpl in *; try done;
    repeat case_match; simplify_eq; eauto.
Qed.

End NormalizerFacts.

Section NormalizerResults.
Import JS Signals Shape.

(** What [normalizeSignal] returns, field by field. *)
Lemma normalizeSignal_fields now raw s :
  normalizeSignal now raw = Ok s ->
  generateId raw = Ok (sig_id s) /\
  or_else (oro (prop raw "name") (prop raw "title")) (extractTitle raw) = Ok (title s) /\
  dedupeTopics (ord (prop raw "topics") (JArr [])) = Ok (topics s) /\
  or_else (prop raw "signalType") (JStr <$> classifySignalType raw) = Ok (signalType s) /\
  source s = ord (prop raw "source") (JStr "unknown") /\
  subSource s = ord (oro (prop raw "subSource") (prop raw "sub_source")) (JStr "unknown") /\
  text s = ord (oro (prop raw "text") (prop raw "description")) (JStr "") /\
  url s = ord (oro (oro (prop raw "url") (prop raw "news_url")) (prop raw "html_url")) JNull /\
  sentiment s = ord (prop raw "sentiment") (JStr "neutral").
Proof.
  unfold normalizeSignal. intros H.
  destruct (generateId raw) as [id|]; [|done]. cbn [mbind result_bind] in H.
  destruct (or_else (oro _ _) (extractTitle raw)) as [t|]; [|done].
  cbn [mbind result_bind] in H.
  destruct (dedupeTopics _) as [ts|]; [|done]. cbn [mbind result_bind] in H.
  destruct (or_else (prop raw "signalType") _) as [ty|]; [|done].
  cbn [mbind result_bind] in H. injection H as <-. repeat split.
Qed.

Lemma normalizeSignal_total now raw :
  wellTyped raw = true -> exists s, normalizeSignal now raw = Ok s.
Proof.
  intros H.
  assert (Hn : raw <> JNull) by (by destruct raw).
  destruct (generateId_total raw H) as [id Hid].
  assert (H' : optString (prop raw "text") && optString (prop raw "subSource") &&
               optScalar (prop raw "source") && optScalar (prop raw "url") &&
               optScalar (prop raw "name") && optScalar (prop raw "ticker") &&
               optTags (prop raw "topics") = true) by (by destruct raw).
  repeat (apply andb_prop in H' as [H' ?]).
  destruct (or_else_total (oro (prop raw "name") (prop raw "title")) (extractTitle raw))
    as [t Ht]; [by apply extractTitle_total|].
  destruct (dedupeTopics_total (prop raw "topics")) as [ts Hts]; [done|].
  destruct (or_else_total (prop raw "signalType") (JStr <$> classifySignalType raw))
    as [ty Hty].
  { destruct (classifySignalType_total raw) as [c ->]; [done..|]. simpl. eauto. }
  unfold normalizeSignal. rewrite Hid. cbn [mbind result_bind]. rewrite Ht.
  cbn [mbind result_bind]. rewrite Hts. cbn [mbind result_bind]. rewrite Hty.
  cbn [mbind result_bind]. eauto.
Qed.

(** C5. Two records that agree on [source], on [subSource] and on the
    first available of url, name and the first 50 characters of the text
    ([idKey]) get the same id, whenever and in whichever order they are
    normalized; for records of the expected shape both ids exist. *)
Theorem C5_fingerprint_stability (f1 f2 : list (string * json)) (now1 now2 : string) :
  prop (JObj f1) "source" = prop (JObj f2) "source" ->
  prop (JObj f1) "subSource" = prop (JObj f2) "subSource" ->
  idKey (JObj f1) = idKey (JObj f2) ->
  generateId (JObj f1) = generateId (JObj f2) /\
  (forall s1 s2,
     normalizeSignal now1 (JObj f1) = Ok s1 -> normalizeSignal now2 (JObj f2) = Ok s2 ->
     sig_id s1 = sig_id s2) /\
  (wellTyped (JObj f1) = true -> wellTyped (JObj f2) = true ->
   exists s1 s2,
     normalizeSignal now1 (JObj f1) = Ok s1 /\ normalizeSignal now2 (JObj f2) = Ok s2 /\
     sig_id s1 = sig_id s2).
Proof.
  intros Hsrc Hsub Hkey.
  assert (Hid : generateId (JObj f1) = generateId (JObj f2)).
  { unfold generateId, deref. by rewrite Hsrc, Hsub, Hkey. }
  assert (Hsame : forall s1 s2,
     normalizeSignal now1 (JObj f1) = Ok s1 -> normalizeSignal now2 (JObj f2) = Ok s2 ->
     sig_id s1 = sig_id s2).
  { intros s1 s2 H1 H2.
    apply normalizeSignal_fields in H1 as [H1 _], H2 as [H2 _]. congruence. }
  split; [exact Hid|]. split; [exact Hsame|].
  intros W1 W2.
  destruct (normalizeSignal_total now1 _ W1) as [s1 H1].
  destruct (normalizeSignal_total now2 _ W2) as [s2 H2].
  exists s1, s2. eauto.
Qed.


(** C7. On every value of the expected shape (not [null];
    [text] and [subSource] strings, [source], [url], [name], [ticker] and
    the topics scalars, each where present) [normalizeSignal] returns a
    signal, in which a missing field has its default: the empty string,
    [null], "unknown", "neutral", "general". *)
Theorem C7_total_on_expected_shape (now : string) (raw : json) :
  wellTyped raw = true ->
  exists s, normalizeSignal now raw = Ok s /\
    (prop raw "source" = None -> source s = JStr "unknown") /\
    (prop raw "subSource" = None -> prop raw "sub_source" = None ->
     subSource s = JStr "unknown") /\
    (prop raw "text" = None -> prop raw "description" = None -> text s = JStr "") /\
    (prop raw "url" = None -> prop raw "news_url" = None -> prop raw "html_url" = None ->
     url s = JNull) /\
    (prop raw "sentiment" = None -> sentiment s = JStr "neutral") /\
    (prop raw "signalType" = None -> prop raw "source" = None ->
     prop raw "subSource" = None -> signalType s = JStr "general").
Proof.
  intros H. destruct (normalizeSignal_total now raw H) as [s Hs].
  exists s. split; [exact Hs|].
  apply normalizeSignal_fields in Hs as (_ & _ & _ & Hty & -> & -> & -> & -> & ->).
  repeat split.
  - by intros ->.
  - by intros -> ->.
  - by intros -> ->.
  - by intros -> -> ->.
  - by intros ->.
  - intros E1 E2 E3. rewrite E1 in Hty. unfold classifySignalType in Hty.
    rewrite E2, E3 in Hty. destruct raw; [done|..]; simpl in Hty; congruence.
Qed.

End NormalizerResults.

Section NormalizerExamples.
Import JS Signals Shape Examples.

(** C5 on two listings of one repository with different star counts. *)
Lemma C5_fingerprint_stability_witness :
  generateId repoThen = generateId repoNow /\
  (forall s1 s2,
     normalizeSignal noon repoThen = Ok s1 -> normalizeSignal noon repoNow = Ok s2 ->
     sig_id s1 = sig_id s2) /\
  (wellTyped repoThen = true -> wellTyped repoNow = true ->
   exists s1 s2,
     normalizeSignal noon repoThen = Ok s1 /\ normalizeSignal noon repoNow = Ok s2 /\
     sig_id s1 = sig_id s2).
Proof.
  apply (C5_fingerprint_stability
           [("source", JStr "github"); ("subSource", JStr "new_repos");
            ("name", JStr "xona-labs/radar"); ("stars", JNum 12);
            ("topics", JArr [JStr "Solana"; JStr "AI agents"])]
           [("source", JStr "github"); ("subSource", JStr "new_repos");
            ("name", JStr "xona-labs/radar"); ("stars", JNum 57);
            ("topics", JArr [JStr "Solana"; JStr "AI agents"])]
           noon noon); reflexivity.
Defined.

(** C7 on [null]: reading its first property raises. *)
Lemma C7_null_raises : ~ totalOn noon JNull.
Proof. intros [s Hs]. discriminate Hs. Qed.

(** A record whose [text] is a number raises as well. *)
Lemma numeric_text_raises : normalizeSignal noon numericText = Throw TypeError.
Proof. reflexivity. Qed.

(** C7 on a record that has nothing but a text. *)
Lemma C7_total_on_expected_shape_witness :
  wellTyped barePost = true /\
  exists s, normalizeSignal noon barePost = Ok s /\
    (prop barePost "source" = None -> source s = JStr "unknown") /\
    (prop barePost "subSource" = None -> prop barePost "sub_source" = None ->
     subSource s = JStr "unknown") /\
    (prop barePost "text" = None -> prop barePost "description" = None ->
     text s = JStr "") /\
    (prop barePost "url" = None -> prop barePost "news_url" = None ->
     prop barePost "html_url" = None -> url s = JNull) /\
    (prop barePost "sentiment" = None -> sentiment s = JStr "neutral") /\
    (prop barePost "signalType" = None -> prop barePost "source" = None ->
     prop barePost "subSource" = None -> signalType s = JStr "general").
Proof.
  split; [reflexivity|].
  apply (C7_total_on_expected_shape noon barePost). reflexivity.
Defined.

End NormalizerExamples.

Section Renormalizing.
Import JS Signals Shape.

Lemma or_else_inv a b v :
  or_else a b = Ok v ->
  (exists w, a = Some w /\ truthy w = true /\ v = w) \/ b = Ok v.
Proof.
  unfold or_else. destruct a as [w|]; [|by right].
  destruct (truthy w) eqn:E; [|by right].
  intros [= <-]. left. eauto.
Qed.

Lemma classifySignalType_truthy raw t :
  classifySignalType raw = Ok t -> truthy (JStr t) = true.
Proof.
  unfold classifySignalType, deref. destruct raw; [done|..];
    repeat case_match; intros; by simplify_eq.
Qed.

Lemma signalType_truthy now raw s :
  normalizeSignal now raw = Ok s -> truthy (signalType s) = true.
Proof.
  intros (_ & _ & _ & H & _)%normalizeSignal_fields.
  apply or_else_inv in H as [(w & _ & Hw & ->)|H]; [done|].
  destruct (classifySignalType raw) as [t|] eqn:E; [|done].
  injection H as <-. by eapply classifySignalType_truthy.
Qed.

Lemma append_truthy a b : truthy (JStr (String a b)) = true.
Proof. done. Qed.

(** A title that is empty was cut out of a text that is a string. *)
Lemma title_or_text now raw s :
  normalizeSignal now raw = Ok s ->
  truthy (title s) = true \/ exists s0, text s = JStr s0 /\ truthy (JStr s0) = true.
Proof.
  intros (_ & H & _ & _ & _ & _ & Htext & _)%normalizeSignal_fields.
  apply or_else_inv in H as [(w & _ & Hw & ->)|H]; [by left|].
  assert (E : extractTitle raw = Ok (title s) ->
    match oro (prop raw "name") None with
    | Some name => Ok name
    | None =>
        match oro (prop raw "text") None with
        | Some (JStr s) => Ok (JStr (trim (prefix 100 s)))
        | Some _ => Throw TypeError
        | None =>
            match oro (prop raw "ticker") None with
            | Some t => s ← ToString t; Ok (JStr ("$" +:+ s))
            | None => Ok (JStr "Untitled Signal")
            end
        end
    end = Ok (title s)) by (by destruct raw).
  apply E in H. clear E.
  destruct (oro (prop raw "name") None) as [nm|] eqn:En.
  { injection H as <-. left. unfold oro in En. repeat case_match; by simplify_eq. }
  destruct (oro (prop raw "text") None) as [tx|] eqn:Et.
  { destruct tx; try done. right. rewrite Htext.
    unfold oro in Et. unfold oro, ord.
    destruct (prop raw "text") as [v|]; [|done].
    destruct (truthy v) eqn:Tv; [|done]. injection Et as ->.
    cbn beta iota. rewrite Tv. eauto. }
  destruct (oro (prop raw "ticker") None) as [tk|].
  - destruct (ToString tk) as [st|]; [|done]. injection H as <-. by left.
  - injection H as <-. by left.
Qed.

Lemma normalizeTopics_strings ts :
  exists ss, normalizeTopics (map JStr ts) = Ok ss.
Proof.
  induction ts as [|t r [ss IH]]; simpl; [by eauto|].
  rewrite IH. simpl. eauto.
Qed.

Lemma oro_absent a b : absent a = true -> oro a b = b.
Proof. unfold absent, oro. destruct a as [v|]; [|done]. by destruct (truthy v). Qed.

Lemma present_inv a :
  absent a = false -> exists v, a = Some v /\ truthy v = true.
Proof.
  unfold absent. destruct a as [v|]; [|done]. destruct (truthy v) eqn:E; [|done]. eauto.
Qed.

Lemma ord_absent a d : absent a = true -> ord a d = d.
Proof. unfold absent, ord. destruct a as [v|]; [|done]. by destruct (truthy v). Qed.

(** The id of a signal of a record that keeps its identity is the id of
    the record: the three parts of the key are the same strings. *)
Lemma renormalize_generateId now raw s :
  hasIdentity raw = true -> normalizeSignal now raw = Ok s ->
  generateId (toJson s) = Ok (sig_id s).
Proof.
  intros Hid Hs.
  apply normalizeSignal_fields in Hs as (Hg & _ & _ & _ & Hsrc & Hsub & Htext & Hurl & _).
  unfold hasIdentity in Hid.
  apply andb_prop in Hid as [[Ha Hb]%andb_prop Hkey].
  apply negb_true_iff, present_inv in Ha as (a & Ea & Ta).
  apply negb_true_iff, present_inv in Hb as (b & Eb & Tb).
  rewrite Ea in Hsrc. rewrite Eb in Hsub.
  unfold ord, oro in Hsrc, Hsub. rewrite Ta in Hsrc. rewrite Tb in Hsub.
  cbn beta iota in Hsub. rewrite Tb in Hsub.
  assert (Hraw : forall A (k : result A), deref raw k = k) by (by destruct raw).
  rewrite <- Hg. unfold generateId. rewrite Hraw.
  change (deref (toJson s) ?k) with k.
  change (prop (toJson s) "source") with (Some (source s)).
  change (prop (toJson s) "subSource") with (Some (subSource s)).
  rewrite Ea, Eb, Hsrc, Hsub.
  assert (Hk : idKey (toJson s) = idKey raw); [|by rewrite Hk].
  unfold idKey.
  change (prop (toJson s) "url") with (Some (url s)).
  change (prop (toJson s) "name") with (@None json).
  destruct (absent (prop raw "url")) eqn:Eu.
  - (* keyed by the text *)
    cbn [negb orb] in Hkey.
    apply andb_prop in Hkey as [[[Hnews Hhtml]%andb_prop Hname]%andb_prop Htd].
    rewrite !oro_absent, ord_absent in Hurl by (by rewrite ?oro_absent).
    rewrite Hurl, (oro_absent _ _ Eu). cbn [oro truthy].
    assert (Hname' : or_else (prop raw "name")
                       (t ← textPrefix raw; Ok (ord t (JStr "")))
                     = (t ← textPrefix raw; Ok (ord t (JStr "")))).
    { unfold or_else, absent in *. destruct (prop raw "name") as [v|]; [|done].
      by destruct (truthy v). }
    rewrite Hname'. cbn [or_else].
    assert (Hok : exists k, (t ← textPrefix raw; Ok (ord t (JStr ""))) = Ok k).
    { unfold generateId, idKey in Hg. rewrite Hraw, (oro_absent _ _ Eu), Hname' in Hg.
      destruct (t ← textPrefix raw; Ok (ord t (JStr ""))) as [k|]; [by eauto|done]. }
    destruct Hok as [k Hok]. rewrite Hok.
    unfold textPrefix in Hok |- *.
    change (prop (toJson s) "text") with (Some (text s)).
    destruct (absent (prop raw "text")) eqn:Et.
    + (* no text: the signal has the empty text *)
      cbn [negb orb] in Htd.
      rewrite (oro_absent _ _ Et), (ord_absent _ _ Htd) in Htext. rewrite Htext.
      cbn [mbind result_bind]. unfold absent in Et.
      destruct (prop raw "text") as [[| | |s0| |]|]; try done; cbn in Hok;
        try (by injection Hok as <-).
      destruct s0; [by injection Hok as <-|done].
    + (* a text: the signal has it *)
      apply present_inv in Et as (v & Ev & Tv).
      rewrite Ev in Htext, Hok. unfold oro, ord in Htext. rewrite Tv in Htext.
      cbn beta iota in Htext. rewrite Tv in Htext. rewrite Htext.
      by destruct v.
  - (* keyed by the url *)
    apply present_inv in Eu as (c & Ec & Tc).
    rewrite Ec in Hurl |- *. unfold ord, oro in Hurl. rewrite Tc in Hurl.
    cbn beta iota in Hurl. rewrite !Tc in Hurl. rewrite Hurl.
    unfold or_else, oro. by rewrite !Tc.
Qed.

(** Normalizing a signal of a record that keeps its identity gives a
    signal with the same id. *)
Lemma renormalize_id now now' raw s :
  hasIdentity raw = true -> normalizeSignal now raw = Ok s ->
  exists s', normalizeSignal now' (toJson s) = Ok s' /\ sig_id s' = sig_id s.
Proof.
  intros Hid Hs.
  pose proof (signalType_truthy _ _ _ Hs) as Hty.
  pose proof (title_or_text _ _ _ Hs) as Htt.
  pose proof (renormalize_generateId _ _ _ Hid Hs) as Hg'.
  assert (Ht : exists t,
    or_else (oro (prop (toJson s) "name") (prop (toJson s) "title"))
            (extractTitle (toJson s)) = Ok t).
  { change (prop (toJson s) "name") with (@None json).
    change (prop (toJson s) "title") with (Some (title s)).
    unfold or_else, oro.
    destruct Htt as [Htt|(s0 & Hs0 & Ts0)].
    - rewrite Htt. eauto.
    - destruct (truthy (title s)); [by eauto|].
      unfold extractTitle, deref. cbn [toJson].
      change (prop (toJson s) "name") with (@None json).
      change (prop (toJson s) "text") with (Some (text s)).
      unfold oro. rewrite Hs0, Ts0. eauto. }
  destruct Ht as [t Ht].
  assert (Hd : exists ts,
    dedupeTopics (ord (prop (toJson s) "topics") (JArr [])) = Ok ts).
  { change (prop (toJson s) "topics") with (Some (JArr (map JStr (topics s)))).
    destruct (normalizeTopics_strings (topics s)) as [ss Hss].
    unfold ord. cbn [truthy dedupeTopics]. rewrite Hss. cbn [mbind result_bind]. eauto. }
  destruct Hd as [ts Hd].
  assert (Hsig : forall b,
    or_else (prop (toJson s) "signalType") b = Ok (signalType s)).
  { intros b0. change (prop (toJson s) "signalType") with (Some (signalType s)).
    unfold or_else. by rewrite Hty. }
  unfold normalizeSignal. rewrite Hg'. cbn [mbind result_bind]. rewrite Ht.
  cbn [mbind result_bind]. rewrite Hd. cbn [mbind result_bind]. rewrite Hsig.
  cbn [mbind result_bind]. eauto.
Qed.

End Renormalizing.

Section NormalizeAllFacts.
Import JS Signals Shape.
Variable dateValue : json -> option Z.

(** What the loop adds has pairwise distinct ids, none of them seen
    before, and each added signal is the normalization of a record. *)
Lemma normalizeLoop_inv clock raws : forall i seen acc out,
  normalizeLoop clock i raws seen acc = Ok out ->
  exists new, out = acc ++ new /\ NoDup (map sig_id new) /\
    Forall (fun s => (sig_id s ∉ seen) /\
                     exists raw, (raw ∈ raws) /\ exists now, normalizeSignal now raw = Ok s)
           new.
Proof.
  induction raws as [|raw rest IH]; intros i seen acc out H; simpl in H.
  - injection H as <-. exists []. rewrite app_nil_r. repeat constructor.
  - destruct (normalizeSignal (clock i) raw) as [signal|] eqn:E; [|done].
    cbn [mbind result_bind] in H. case_decide as Hin.
    + destruct (IH _ _ _ _ H) as (new & -> & Hnd & Hall).
      exists new. split; [done|]. split; [done|].
      eapply Forall_impl; [exact Hall|]. intros s (? & r & ? & ?).
      split; [done|]. exists r. split; [by right|done].
    + destruct (IH _ _ _ _ H) as (new & -> & Hnd & Hall).
      exists (signal :: new). rewrite <- app_assoc. split; [done|]. split.
      * cbn [map]. apply NoDup_cons. split; [|done].
        intros (s & Hs & Hin')%list_elem_of_fmap.
        rewrite Forall_forall in Hall. destruct (Hall s Hin') as [Hns _].
        apply Hns. rewrite <- Hs. apply elem_of_union_l, elem_of_singleton. done.
      * constructor.
        -- split; [done|]. exists raw. split; [left|eauto].
        -- eapply Forall_impl; [exact Hall|]. intros s (Hns & r & ? & ?).
           split; [|exists r; split; [by right|done]].
           intros Hs. apply Hns. by apply elem_of_union_r.
Qed.

(** Records whose ids are pairwise distinct and not yet seen are all
    kept, in order. *)
Lemma normalizeLoop_keeps clock (f : json -> string) raws : forall i seen acc,
  Forall (fun raw => forall now, exists s, normalizeSignal now raw = Ok s /\ sig_id s = f raw)
         raws ->
  NoDup (map f raws) ->
  Forall (fun raw => f raw ∉ seen) raws ->
  exists new, normalizeLoop clock i raws seen acc = Ok (acc ++ new) /\
              map sig_id new = map f raws.
Proof.
  induction raws as [|raw rest IH]; intros i seen acc Hok Hnd Hseen.
  - exists []. by rewrite app_nil_r.
  - apply Forall_cons in Hok as [Hraw Hok]. apply Forall_cons in Hseen as [Hr Hseen].
    cbn [map] in Hnd. apply NoDup_cons in Hnd as [Hnot Hnd].
    destruct (Hraw (clock i)) as (s & Hs & Hid).
    destruct (IH (S i) ({[sig_id s]} ∪ seen) (acc ++ [s]) Hok Hnd) as (new & Hl & Hm).
    { rewrite Forall_forall in Hseen |- *. intros r Hin.
      specialize (Hseen r Hin). rewrite Hid.
      intros [Heq%elem_of_singleton|Hs']%elem_of_union; [|done].
      apply Hnot. rewrite <- Heq. apply list_elem_of_fmap. eauto. }
    exists (s :: new). cbn [normalizeLoop]. rewrite Hs. cbn [mbind result_bind].
    rewrite decide_False by (by rewrite Hid).
    rewrite Hl, <- app_assoc. cbn [map]. by rewrite Hm, Hid.
Qed.

Lemma normalizeLoop_total clock raws : forall i seen acc,
  Forall (fun raw => wellTyped raw = true) raws ->
  exists out, normalizeLoop clock i raws seen acc = Ok out.
Proof.
  induction raws as [|raw rest IH]; intros i seen acc Hw; [simpl; by eauto|].
  apply Forall_cons in Hw as [Hraw Hw].
  destruct (normalizeSignal_total (clock i) raw Hraw) as [s Hs].
  cbn [normalizeLoop]. rewrite Hs. cbn [mbind result_bind].
  case_decide; by apply IH.
Qed.

(** On records of the expected shape [normalizeAll] returns. *)
Lemma normalizeAll_total clock raws :
  Forall (fun raw => wellTyped raw = true) raws ->
  exists sigs, normalizeAll dateValue clock raws = Ok sigs.
Proof.
  intros Hw. unfold normalizeAll.
  destruct (normalizeLoop_total clock raws 0%nat ∅ [] Hw) as [out ->].
  cbn [mbind result_bind]. eauto.
Qed.

(** No two signals of the result share an id. *)
Lemma normalizeAll_NoDup clock raws sigs :
  normalizeAll dateValue clock raws = Ok sigs -> NoDup (map sig_id sigs).
Proof.
  unfold normalizeAll. intros H.
  destruct (normalizeLoop clock 0 raws ∅ []) as [out|] eqn:E; [|done].
  cbn [mbind result_bind] in H. injection H as <-.
  apply normalizeLoop_inv in E as (new & -> & Hnd & _).
  cbn [app]. by rewrite sort_perm.
Qed.

End NormalizeAllFacts.

Section Idempotence.
Import JS Signals Shape.



(** C6. When every record keeps its identity (a truthy [source] and
    [subSource]; keyed by a truthy [url] or, without [url], [news_url],
    [html_url] and [name], by its text, with no [description] standing in
    for a missing text), normalizing the signals of [normalizeAll] once
    more returns signals with the same ids: the same number of signals,
    none dropped as a duplicate and none with a new id. *)
Theorem C6_idempotent_on_identified (dateValue : json -> option Z)
    (clock clock' : nat -> string) (raws : list json) (sigs : list Signal) :
  Forall (fun raw => hasIdentity raw = true) raws ->
  normalizeAll dateValue clock raws = Ok sigs ->
  exists sigs', normalizeAll dateValue clock' (map toJson sigs) = Ok sigs' /\
    map sig_id sigs' ≡ₚ map sig_id sigs /\
    list_to_set (map sig_id sigs') =@{gset string} list_to_set (map sig_id sigs).
Proof.
  intros Hid Hall.
  pose proof (normalizeAll_NoDup _ _ _ _ Hall) as Hnd.
  assert (Hfrom : Forall (fun s => exists raw, hasIdentity raw = true /\
                                    exists now, normalizeSignal now raw = Ok s) sigs).
  { unfold normalizeAll in Hall.
    destruct (normalizeLoop clock 0 raws ∅ []) as [out|] eqn:E; [|done].
    cbn [mbind result_bind] in Hall. injection Hall as <-.
    apply normalizeLoop_inv in E as (new & -> & _ & Hnew). cbn [app].
    rewrite sort_perm. eapply Forall_impl; [exact Hnew|].
    intros s (_ & raw & Hin & now & Hs). exists raw. split; [|eauto].
    rewrite Forall_forall in Hid. by apply Hid. }
  assert (Hre : Forall (fun raw => forall now,
                   exists s', normalizeSignal now raw = Ok s' /\ sig_id s' = idOf raw)
                 (map toJson sigs)).
  { apply Forall_fmap. eapply Forall_impl; [exact Hfrom|].
    intros s (raw & Hraw & now & Hs) now'. cbn.
    destruct (renormalize_id now now' raw s Hraw Hs) as (s' & Hs' & _).
    exists s'. split; [done|].
    apply normalizeSignal_fields in Hs' as [Hg _]. unfold idOf. by rewrite Hg. }
  assert (Hids : map idOf (map toJson sigs) = map sig_id sigs).
  { rewrite map_map. apply map_ext_Forall. eapply Forall_impl; [exact Hfrom|].
    intros s (raw & Hraw & now & Hs).
    destruct (renormalize_id now now raw s Hraw Hs) as (s' & Hs' & Hsame).
    apply normalizeSignal_fields in Hs' as [Hg _]. unfold idOf. by rewrite Hg. }
  destruct (normalizeLoop_keeps clock' idOf (map toJson sigs) 0%nat ∅ [] Hre)
    as (new & Hloop & Hnew).
  { by rewrite Hids. }
  { apply Forall_forall. intros. apply not_elem_of_empty. }
  cbn [app] in Hloop.
  exists (sort (byDate dateValue) new).
  assert (Hperm : map sig_id (sort (byDate dateValue) new) ≡ₚ map sig_id sigs).
  { by rewrite sort_perm, Hnew, Hids. }
  split; [|split; [exact Hperm|]].
  - unfold normalizeAll. by rewrite Hloop.
  - apply set_eq. intros x. rewrite !elem_of_list_to_set. by rewrite Hperm.
Qed.

End Idempotence.

Section IdempotenceExamples.
Import JS Signals Shape Examples MoreSamples.

(** C6 on records without url: two tokens with a name are two
    signals; normalized once more, both get the id of the empty key and
    one of them is dropped. *)
Lemma C6_renormalizing_changes_ids :
  ~ idempotentIds numericDate (fun _ => noon) [tokenAlpha; tokenBeta].
Proof.
  intros H.
  eassert (E : normalizeAll numericDate (fun _ => noon) [tokenAlpha; tokenBeta] = Ok _)
    by (vm_compute; reflexivity).
  destruct (H _ E) as (sigs' & Hs' & Heq). clear H E.
  vm_compute in Hs'. injection Hs' as <-.
  apply (f_equal (fun X : gset string => bool_decide ("sig_w0nf9" ∈ X))) in Heq.
  vm_compute in Heq. discriminate Heq.
Qed.

(** C6 on two listings of a repository, keyed by its url, and two
    posts without url, keyed by their text. *)
Lemma C6_idempotent_on_identified_witness :
  Forall (fun raw => hasIdentity raw = true) [repoA; olderPost; repoA; newerPost] /\
  exists sigs sigs',
    normalizeAll numericDate (fun _ => noon) [repoA; olderPost; repoA; newerPost] = Ok sigs /\
    normalizeAll numericDate (fun _ => noon) (map toJson sigs) = Ok sigs' /\
    map sig_id sigs' ≡ₚ map sig_id sigs /\
    list_to_set (map sig_id sigs') =@{gset string} list_to_set (map sig_id sigs).
Proof.
  assert (Hid : Forall (fun raw => hasIdentity raw = true)
                  [repoA; olderPost; repoA; newerPost]).
  { repeat constructor. }
  split; [exact Hid|].
  destruct (normalizeAll numericDate (fun _ => noon) [repoA; olderPost; repoA; newerPost])
    as [sigs|e] eqn:E.
  - destruct (C6_idempotent_on_identified numericDate (fun _ => noon) (fun _ => noon)
                [repoA; olderPost; repoA; newerPost] sigs Hid E) as (sigs' & H1 & H2 & H3).
    exists sigs, sigs'. repeat split; assumption.
  - vm_compute in E. discriminate E.
Defined.

End IdempotenceExamples.

(** ** The collection step *)

Section CollectionFacts.
Import JS Scheduler.

(** C8. Whatever the four adapters do, the collection step returns (it
    has no way to raise); what it returns is the records of the adapters
    that succeeded, in the order social, on-chain, GitHub, research, so
    as many records as they returned together; an adapter that failed
    adds no record and one line to the log; and when all four fail the
    result is empty. *)
Theorem C8_partial_failure_tolerance (social onchain github research : settled) :
  let c := collect social onchain github research in
  allRawSignals c = records social ++ records onchain ++ records github ++ records research /\
  length (allRawSignals c) =
    (length (records social) + length (records onchain) +
     length (records github) + length (records research))%nat /\
  length (errors c) =
    length (filter (fun r => failed r = true) [social; onchain; github; research]) /\
  (forall r, failed r = true -> records r = []) /\
  (forall e1 e2 e3 e4,
     allRawSignals (collect (rejected e1) (rejected e2) (rejected e3) (rejected e4)) = []).
Proof.
  cbn zeta.
  assert (H : allRawSignals (collect social onchain github research)
              = records social ++ records onchain ++ records github ++ records research).
  { destruct social, onchain, github, research; cbn; by rewrite <- ?app_assoc, ?app_nil_r. }
  split; [exact H|]. split; [|split; [|split]].
  - rewrite H, !length_app. lia.
  - destruct social, onchain, github, research; cbn; by rewrite ?length_app.
  - by intros [].
  - done.
Qed.

End CollectionFacts.

(** ** The snapshot store *)

Section StoreFacts.
Import Store.
Context {Signal Narrative Stats Meta : Type}.



Lemma append_length a b : String.length (a +:+ b) = (String.length a + String.length b)%nat.
Proof. induction a; simpl; [done|]. by rewrite IHa. Qed.

Lemma append_inv_tail a b s : a +:+ s = b +:+ s -> a = b.
Proof.
  revert b. induction a as [|c a IH]; intros [|c' b] H; simpl in H.
  - done.
  - apply (f_equal String.length) in H. rewrite !append_length in H. simpl in H. lia.
  - apply (f_equal String.length) in H. rewrite !append_length in H. simpl in H. lia.
  - injection H as -> H. by rewrite (IH b H).
Qed.

Lemma prefix_append p s : String.prefix p (p +:+ s) = true.
Proof.
  induction p as [|c p IH]; simpl; [by destruct s|].
  by destruct (ascii_dec c c).
Qed.

Lemma narrativesFile_inj a b : narrativesFile a = narrativesFile b -> dashes a = dashes b.
Proof.
  unfold narrativesFile. intros H.
  change ("narratives_" +:+ ?x) with (append "narratives_" x) in H.
  simpl in H. injection H as H.
  exact (append_inv_tail (dashes a) (dashes b) ".json" H).
Qed.

Lemma dashes_length a : String.length (dashes a) = String.length a.
Proof. induction a; simpl; [done|]. by rewrite IHa. Qed.

Lemma matches_length shape a : matches shape a = true -> String.length a = length shape.
Proof.
  revert a. induction shape as [|p ps IH]; intros [|c a]; simpl; try done.
  intros [_ H]%andb_prop. by rewrite (IH a H).
Qed.

Lemma dash_digit c : isDigit c = true -> dash c = c.
Proof. destruct c as [[] [] [] [] [] [] [] []]; by vm_compute. Qed.

Lemma dash_inj_digit c1 c2 :
  isDigit c1 = true -> isDigit c2 = true -> dash c1 = dash c2 -> c1 = c2.
Proof. intros H1 H2. by rewrite !dash_digit. Qed.

Lemma eqb_same c c1 c2 : Ascii.eqb c c1 = true -> Ascii.eqb c c2 = true -> c1 = c2.
Proof. intros H1%Ascii.eqb_eq H2%Ascii.eqb_eq. congruence. Qed.

(** On a shape whose classes the substitution does not merge, the
    substitution loses nothing. *)
Lemma dashes_inj_on shape :
  Forall (fun p : ascii -> bool =>
            forall c1 c2, p c1 = true -> p c2 = true -> dash c1 = dash c2 -> c1 = c2) shape ->
  forall a b, matches shape a = true -> matches shape b = true ->
              dashes a = dashes b -> a = b.
Proof.
  induction 1 as [|p ps Hp Hps IH]; intros [|c a] [|c' b]; simpl; try done.
  intros [Hc Ha]%andb_prop [Hc' Hb]%andb_prop [= Hd Hr].
  by rewrite (Hp c c' Hc Hc' Hd), (IH a b Ha Hb Hr).
Qed.

(** Two readings of the clock that differ name two different files. *)
Lemma narrativesFile_iso_inj a b :
  isISO a = true -> isISO b = true -> narrativesFile a = narrativesFile b -> a = b.
Proof.
  intros Ha Hb H. apply narrativesFile_inj in H.
  apply (dashes_inj_on isoShape); try done.
  unfold isoShape.
  repeat (constructor; [first [exact dash_inj_digit | intros c1 c2 H1 H2 _; by eapply eqb_same]|]).
  constructor.
Qed.

(** A reading of the clock never names the alias. *)
Lemma narrativesFile_iso_not_latest a :
  isISO a = true -> narrativesFile a <> narrativesLatest.
Proof.
  intros Ha H.
  change narrativesLatest with (narrativesFile "latest") in H.
  apply narrativesFile_inj in H. apply (f_equal String.length) in H.
  rewrite !dashes_length, (matches_length _ _ Ha) in H. discriminate H.
Qed.

Lemma narrativesFile_iso_snapshot a :
  isISO a = true -> isNarrativeSnapshot (narrativesFile a) = true.
Proof.
  intros Ha. unfold isNarrativeSnapshot. apply andb_true_intro. split.
  - apply prefix_append.
  - apply negb_true_iff, String.eqb_neq. by apply narrativesFile_iso_not_latest.
Qed.


(** C9. When the two calls read different values of the clock (in the
    format of [toISOString]), then, whatever the directory held before,
    after both calls each of the two timestamp-named records holds what
    its call wrote and [loadLatestNarratives] returns what the second call
    wrote; and, starting from a directory whose alias is backed and which
    does not have the first call's file name yet, the alias is backed
    after every single write, the record being written before the alias. *)
Theorem C9_snapshots_kept (d0 : gmap string (file Signal Narrative Stats Meta))
    (t1 t1' : string) (n1 : list Narrative) (s1 : Stats)
    (t2 t2' : string) (n2 : list Narrative) (s2 : Stats) :
  isISO t1 = true -> isISO t2 = true -> t1 <> t2 ->
  recordsKept d0 t1 t1' n1 s1 t2 t2' n2 s2 /\
  (latestBacked d0 -> d0 !! narrativesFile t1 = None ->
   aliasBacked d0 t1 t1' n1 s1 t2 t2' n2 s2).
Proof.
  intros I1 I2 Hne.
  pose proof (narrativesFile_iso_not_latest t1 I1) as L1.
  pose proof (narrativesFile_iso_not_latest t2 I2) as L2.
  pose proof (narrativesFile_iso_snapshot t1 I1) as S1.
  pose proof (narrativesFile_iso_snapshot t2 I2) as S2.
  assert (D : narrativesFile t1 <> narrativesFile t2).
  { intros H. by apply Hne, narrativesFile_iso_inj. }
  unfold recordsKept, aliasBacked, twoSaves, saveNarratives, loadLatestNarratives, written.
  cbn [fst snd app run states fold_left perform].
  set (c2 := NarrativeFile _). set (c1 := NarrativeFile _).
  split; [split; [|split]|].
  - rewrite lookup_insert_ne, lookup_insert_ne, lookup_insert_ne by done.
    apply lookup_insert_eq.
  - rewrite lookup_insert_ne by done. apply lookup_insert_eq.
  - by rewrite lookup_insert_eq.
  - intros Hinv F1. repeat constructor; intros f Hf.
    + by apply Hinv.
    + rewrite lookup_insert_ne in Hf by done.
      destruct (Hinv f Hf) as (name & Hname & Hl).
      exists name. split; [done|]. rewrite lookup_insert_ne; [done|].
      intros <-. congruence.
    + rewrite lookup_insert_eq in Hf. injection Hf as <-.
      exists (narrativesFile t1). split; [done|].
      rewrite lookup_insert_ne by done. apply lookup_insert_eq.
    + rewrite lookup_insert_ne, lookup_insert_eq in Hf by done. injection Hf as <-.
      exists (narrativesFile t1). split; [done|].
      rewrite lookup_insert_ne, lookup_insert_ne by done. apply lookup_insert_eq.
    + rewrite lookup_insert_eq in Hf. injection Hf as <-.
      exists (narrativesFile t2). split; [done|].
      rewrite lookup_insert_ne by done. apply lookup_insert_eq.
Qed.

End StoreFacts.

Section StoreExamples.
Import JS Scoring Store Examples.


(** C9 within one millisecond: the two calls write to the
    same file name, and the first record is gone. *)
Lemma C9_same_millisecond_overwrites :
  ~ snapshotsKept (∅ : gmap string sampleFile)
      noon noon (scoreNarratives Signals.topics [agents] fiveSignals) JNull
      noon noon (scoreNarratives Signals.topics [doubtful; agents] fiveSignals) JNull.
Proof.
  intros ((H1 & _) & _).
  unfold twoSaves, saveNarratives, written in H1.
  cbn [fst snd app run fold_left perform] in H1.
  rewrite lookup_insert_ne in H1 by (by apply not_eq_sym, narrativesFile_iso_not_latest).
  rewrite lookup_insert_eq in H1.
  apply (f_equal (fun f => match f with
                           | Some (NarrativeFile data) => narrativeCount data
                           | _ => O
                           end)) in H1.
  vm_compute in H1. discriminate H1.
Qed.

(** Why the alias clause of C9 asks for a new file name: in a directory
    whose alias is backed by a record of the first call's name, the first
    write replaces that record and leaves the alias without one. *)
Lemma alias_needs_new_name :
  let old : sampleFile := written noon [] JNull in
  let d0 : gmap string sampleFile :=
    <[narrativesLatest := old]> {[narrativesFile noon := old]} in
  latestBacked d0 /\
  ~ aliasBacked d0
      noon noon (scoreNarratives Signals.topics [agents] fiveSignals) JNull
      later later (scoreNarratives Signals.topics [doubtful; agents] fiveSignals) JNull.
Proof.
  cbn zeta. split.
  - intros f Hf. rewrite lookup_insert_eq in Hf. injection Hf as <-.
    exists (narrativesFile noon). split; [reflexivity|].
    rewrite lookup_insert_ne by discriminate. apply lookup_singleton_eq.
  - intros H. unfold aliasBacked, twoSaves, saveNarratives in H.
    cbn [fst snd app states perform] in H.
    apply Forall_cons in H as [_ H]. apply Forall_cons in H as [H _].
    destruct (H (written noon [] JNull)) as (name & Hname & Hl).
    { rewrite lookup_insert_ne by discriminate. apply lookup_insert_eq. }
    destruct (decide (name = narrativesFile noon)) as [->|Hn].
    + rewrite lookup_insert_eq in Hl.
      apply (f_equal (fun f => match f with
                               | Some (NarrativeFile data) => narrativeCount data
                               | _ => O
                               end)) in Hl.
      vm_compute in Hl. discriminate Hl.
    + rewrite lookup_insert_ne in Hl by done.
      destruct (decide (name = narrativesLatest)) as [->|Hl'].
      * discriminate Hname.
      * rewrite lookup_insert_ne, lookup_singleton_ne in Hl by done. discriminate Hl.
Qed.

(** C9 on two saves a fortnight apart into an empty directory. *)
Lemma C9_snapshots_kept_witness :
  snapshotsKept (∅ : gmap string sampleFile)
    noon noon (scoreNarratives Signals.topics [agents] fiveSignals) JNull
    later later (scoreNarratives Signals.topics [doubtful; agents] fiveSignals) JNull.
Proof.
  destruct (C9_snapshots_kept (∅ : gmap string sampleFile)
              noon noon (scoreNarratives Signals.topics [agents] fiveSignals) JNull
              later later (scoreNarratives Signals.topics [doubtful; agents] fiveSignals)
              JNull eq_refl eq_refl) as [Hrecords Halias].
  - discriminate.
  - split; [exact Hrecords|]. apply Halias.
    + intros f Hf. rewrite lookup_empty in Hf. discriminate Hf.
    + apply lookup_empty.
Defined.

End StoreExamples.

(** * Further properties *)

(** ** Scoring: range, monotonicity, what the score depends on *)

Section ScoringMore.
Import JS Scoring Vary.
Context {Signal : Type} (topics : Signal -> list string).

Lemma Math_round_nonneg q : (0 <= q)%Q -> 0 <= Math_round (q * 10).
Proof.
  intros Hq. unfold Math_round.
  change 0 with (Qfloor 0) at 1. apply Qfloor_resp_le.
  destruct q as [a b]. unfold Qle in *. simpl in *. lia.
Qed.

Lemma computeScores_minima n signals :
  confidenceInRange n ->
  0 <= crossSource (computeScores topics n signals) /\
  0 <= evidence (computeScores topics n signals) /\
  5 <= velocity (computeScores topics n signals) /\
  5 <= stage (computeScores topics n signals) /\
  0 <= confidence (computeScores topics n signals) /\
  0 <= signalCount (computeScores topics n signals).
Proof.
  intros Hc. unfold computeScores. simpl. repeat split; try lia.
  - destruct (strict_eq (n_velocity n) "rising"); [lia|].
    destruct (strict_eq (n_velocity n) "stable"); lia.
  - destruct (strict_eq (n_stage n) "emerging"); [lia|].
    destruct (strict_eq (n_stage n) "accelerating"); lia.
  - apply Math_round_nonneg.
    apply (num_or_range (n_confidence n) (1 # 2)); [|exact Hc].
    split; discriminate.
  - apply Z.min_glb; [|lia]. apply Z.div_pos; lia.
Qed.

(** X1. When every confidence that is present lies in [0,1], every total
    lies between 10 and 110: velocity and stage give at least 5 each, and
    no sub-score is negative. *)
Theorem X1_total_between_10_and_110 (ns : list Narrative) (signals : list Signal) :
  Forall confidenceInRange ns ->
  Forall (fun r => 10 <= totalScore r <= 110 /\
                   5 <= velocity (scores r) /\ 5 <= stage (scores r) /\
                   0 <= crossSource (scores r) /\ 0 <= evidence (scores r) /\
                   0 <= confidence (scores r) /\ 0 <= signalCount (scores r))
         (scoreNarratives topics ns signals).
Proof.
  intros Hns. apply Forall_forall. intros r Hr.
  apply scoreNarratives_elem in Hr as (i & n & Hn & ->).
  rewrite Forall_forall in Hns. specialize (Hns n Hn).
  pose proof (computeScores_maxima topics n signals Hns) as Hmax.
  pose proof (computeScores_minima n signals Hns) as Hmin.
  cbn [setRank scoreOne scores totalScore narrative].
  rewrite values_sum. unfold withinMaxima, sumOfSix in *. lia.
Qed.

Lemma filter_submseteq {A} (P : A -> Prop) `{forall x, Decision (P x)} (l1 l2 : list A) :
  l1 ⊆+ l2 -> filter P l1 ⊆+ filter P l2.
Proof.
  induction 1 as [|x l1 l2 _ IH|x y l|x l1 l2 _ IH|l1 l2 l3 _ IH1 _ IH2].
  - done.
  - rewrite !filter_cons. case_decide; [by constructor|done].
  - rewrite !filter_cons. repeat case_decide; try done. by constructor.
  - rewrite filter_cons. case_decide; [by constructor|done].
  - by etrans.
Qed.

(** X2. More signals never lower a score: if every signal of one set is
    also in another, then against the larger set a narrative matches at
    least as many signals and its total is at least as high. *)
Theorem X2_more_signals_never_lower (n : Narrative) (signals signals' : list Signal) :
  signals ⊆+ signals' ->
  matchingSignalCount (scoreOne topics signals n)
    <= matchingSignalCount (scoreOne topics signals' n) /\
  totalScore (scoreOne topics signals n) <= totalScore (scoreOne topics signals' n).
Proof.
  intros Hsub.
  assert (Hlen : (length (matchingSignals topics n signals)
                  <= length (matchingSignals topics n signals'))%nat).
  { apply submseteq_length. unfold matchingSignals. by apply filter_submseteq. }
  unfold scoreOne. cbn [matchingSignalCount totalScore].
  rewrite !values_sum. unfold sumOfSix, computeScores. cbn.
  split; [lia|].
  assert (Z.of_nat (length (matchingSignals topics n signals)) / 2
          <= Z.of_nat (length (matchingSignals topics n signals')) / 2).
  { apply Z.div_le_mono; lia. }
  lia.
Qed.

(** X3. The cross-source score counts distinct sources: a narrative
    whose list of sources has the same members, in any order and with any
    repetitions, gets the same scores. *)
Theorem X3_sources_count_once (n : Narrative) (sources : list string)
    (signals : list Signal) :
  (forall x, x ∈ sources <-> x ∈ or_empty (n_sources n)) ->
  computeScores topics (withSources (Some sources) n) signals
  = computeScores topics n signals.
Proof.
  intros Hsame. unfold computeScores.
  assert (Hu : uniqueSources (withSources (Some sources) n) = uniqueSources n).
  { unfold uniqueSources. cbn. apply set_eq. intros x.
    rewrite !elem_of_list_to_set. apply Hsame. }
  rewrite Hu. reflexivity.
Qed.

Lemma existsb_map {A B} (f : A -> B) (p : B -> bool) l :
  existsb p (map f l) = existsb (fun x => p (f x)) l.
Proof. induction l as [|x l IH]; simpl; [done|]. by rewrite IH. Qed.

(** X4. Matching is by lower-cased topic: signals and a narrative whose
    topics are the same up to letter case as those of others get the same
    scores. *)
Theorem X4_topics_match_up_to_case (topics' : Signal -> list string)
    (n : Narrative) (ts : list string) (signals : list Signal) :
  (forall s, map toLowerCase (topics' s) = map toLowerCase (topics s)) ->
  map toLowerCase ts = map toLowerCase (or_empty (n_topics n)) ->
  computeScores topics' (withTopics (Some ts) n) signals
  = computeScores topics n signals.
Proof.
  intros Hsig Hn.
  assert (Hm : matchingSignals topics' (withTopics (Some ts) n) signals
               = matchingSignals topics n signals).
  { unfold matchingSignals. apply list_filter_iff. intros s.
    unfold narrativeTopics. cbn [n_topics withTopics or_empty]. rewrite Hn.
    rewrite <- (existsb_map toLowerCase
                  (includes (map toLowerCase (or_empty (n_topics n)))) (topics' s)).
    rewrite <- (existsb_map toLowerCase
                  (includes (map toLowerCase (or_empty (n_topics n)))) (topics s)).
    by rewrite Hsig. }
  unfold computeScores. rewrite Hm. reflexivity.
Qed.

End ScoringMore.

(** ** The fingerprint: its form and its collisions *)

Section Fingerprint.
Import JS Signals Canon.

Lemma to_int32_range z : - 2 ^ 31 <= to_int32 z < 2 ^ 31.
Proof. unfold to_int32. pose proof (Z.mod_pos_bound (z + 2 ^ 31) (2 ^ 32)). lia. Qed.

Lemma hashLoop_range str : forall hash,
  - 2 ^ 31 <= hash < 2 ^ 31 -> - 2 ^ 31 <= hashLoop hash str < 2 ^ 31.
Proof.
  induction str as [|c r IH]; intros hash Hh; simpl; [done|].
  apply IH. apply to_int32_range.
Qed.

Lemma append_cons c a b : String c a +:+ b = String c (a +:+ b).
Proof. reflexivity. Qed.

Lemma append_nil_r a : a +:+ "" = a.
Proof. induction a as [|c a IH]; [done|]. by rewrite append_cons, IH. Qed.

Lemma allChars_app p a b : allChars p (a +:+ b) = allChars p a && allChars p b.
Proof.
  induction a as [|c a IH]; [done|].
  rewrite append_cons. cbn [allChars]. by rewrite IH, andb_assoc.
Qed.

Lemma append_assoc a b c : (a +:+ b) +:+ c = a +:+ (b +:+ c).
Proof. induction a as [|x a IH]; [done|]. by rewrite !append_cons, IH. Qed.

Lemma digit36_base36 d : 0 <= d < 36 -> isBase36 (digit36 d) = true.
Proof.
  intros Hd. unfold isBase36, digit36.
  destruct (Z.ltb_spec d 10).
  - rewrite N_ascii_embedding by lia.
    apply orb_true_intro. left. apply andb_true_intro. split; apply N.leb_le; lia.
  - rewrite N_ascii_embedding by lia.
    apply orb_true_intro. right. apply andb_true_intro. split; apply N.leb_le; lia.
Qed.

(** The digits of [n] come out in front of [acc], at most [k] of them
    when [n] is below the [k]-th power of 36. *)
Lemma toString36_aux_digits fuel : forall (k : nat) n acc,
  0 <= n < 36 ^ Z.of_nat k -> (1 <= k)%nat ->
  exists ds, toString36_aux fuel n acc = ds +:+ acc /\
    (String.length ds <= k)%nat /\ allChars isBase36 ds = true /\
    ((1 <= fuel)%nat -> (1 <= String.length ds)%nat).
Proof.
  induction fuel as [|f IH]; intros k n acc Hn Hk.
  - exists "". simpl. repeat split; [lia|lia].
  - cbn [toString36_aux].
    assert (Hd : isBase36 (digit36 (n mod 36)) = true).
    { apply digit36_base36. apply Z.mod_pos_bound. lia. }
    destruct (Z.eqb_spec (n / 36) 0) as [Hz|Hnz].
    + exists (String (digit36 (n mod 36)) ""). simpl. rewrite Hd. repeat split; lia.
    + assert (Hq : 0 < n / 36).
      { pose proof (Z.div_pos n 36). lia. }
      assert (Hk2 : (2 <= k)%nat).
      { destruct k as [|[|k]]; [lia| |lia].
        change (36 ^ Z.of_nat 1) with 36 in Hn.
        rewrite Z.div_small in Hq by lia. lia. }
      destruct (IH (k - 1)%nat (n / 36) (String (digit36 (n mod 36)) acc))
        as (ds & Hds & Hlen & Hall & _).
      { split; [lia|]. apply Z.div_lt_upper_bound; [lia|].
        replace (Z.of_nat (k - 1)) with (Z.of_nat k - 1) by lia.
        rewrite <- Z.pow_succ_r by lia.
        replace (Z.succ (Z.of_nat k - 1)) with (Z.of_nat k) by lia. lia. }
      { lia. }
      exists (ds +:+ String (digit36 (n mod 36)) "").
      rewrite Hds, append_assoc, allChars_app, Hall, append_length.
      cbn [allChars andb String.length]. rewrite Hd.
      repeat split; [lia|lia].
Qed.

Lemma toString36_digits n :
  0 <= n <= 2 ^ 31 ->
  exists ds, toString36 n = ds /\
    (1 <= String.length ds <= 6)%nat /\ allChars isBase36 ds = true.
Proof.
  intros Hn. unfold toString36.
  destruct (toString36_aux_digits (S (Z.to_nat (Z.log2 n))) 6 n "")
    as (ds & Hds & Hlen & Hall & Hone); [simpl; lia|lia|].
  exists ds. rewrite Hds, append_nil_r. split; [done|].
  split; [|done]. split; [apply Hone; lia|done].
Qed.

(** X5. Every id [generateId] returns is [sig_] followed by one to six
    digits of base 36 (0-9, a-z): at most ten characters, whatever the
    length of the record's url, name or text. *)
Theorem X5_id_form (raw : json) (id : string) :
  generateId raw = Ok id -> isId id.
Proof.
  unfold generateId, deref. intros H.
  assert (H' : (key ← idKey raw;
                str ← join "|" [ord (prop raw "source") (JStr "");
                                ord (prop raw "subSource") (JStr ""); key];
                Ok ("sig_" +:+ toString36 (Z.abs (hashLoop 0 str)))) = Ok id).
  { by destruct raw. }
  clear H. destruct (idKey raw) as [key|]; [|done]. cbn [mbind result_bind] in H'.
  destruct (join "|" _) as [str|]; [|done]. cbn [mbind result_bind] in H'.
  injection H' as <-.
  pose proof (hashLoop_range str 0 ltac:(lia)) as Hr.
  destruct (toString36_digits (Z.abs (hashLoop 0 str))) as (ds & -> & Hlen & Hall); [lia|].
  exists ds. done.
Qed.

Lemma hashLoop_app a b : forall hash,
  hashLoop hash (a +:+ b) = hashLoop (hashLoop hash a) b.
Proof.
  induction a as [|c a IH]; intros hash; [done|].
  rewrite append_cons. cbn [hashLoop]. apply IH.
Qed.

(** The hash does not tell [Aa] from [BB]. *)
Lemma hashStep_Aa_BB hash :
  hashStep (hashStep hash "A") "a" = hashStep (hashStep hash "B") "B".
Proof.
  unfold hashStep, to_int32. rewrite !Z.shiftl_mul_pow2 by lia.
  change (Z.of_N (N_of_ascii "A")) with 65. change (Z.of_N (N_of_ascii "a")) with 97.
  change (Z.of_N (N_of_ascii "B")) with 66.
  change (2 ^ 5) with 32. change (2 ^ 31) with 2147483648.
  change (2 ^ 32) with 4294967296.
  Z.div_mod_to_equations. lia.
Qed.

Lemma hashLoop_Aa_BB p q hash :
  hashLoop hash (p +:+ "Aa" +:+ q) = hashLoop hash (p +:+ "BB" +:+ q).
Proof.
  rewrite !hashLoop_app. cbn [hashLoop]. by rewrite hashStep_Aa_BB.
Qed.

Lemma generateId_named fields name :
  oro (prop (JObj fields) "url") None = None ->
  prop (JObj fields) "name" = Some (JStr name) -> name <> "" ->
  generateId (JObj fields) =
    (pre ← join "|" [ord (prop (JObj fields) "source") (JStr "");
                     ord (prop (JObj fields) "subSource") (JStr "")];
     Ok ("sig_" +:+ toString36 (Z.abs (hashLoop 0 (pre +:+ "|" +:+ name))))).
Proof.
  intros Hurl Hname Hne. unfold generateId, deref, idKey.
  assert (Ho : oro (prop (JObj fields) "url") (prop (JObj fields) "name")
               = Some (JStr name)).
  { unfold oro in *. rewrite Hname.
    destruct (prop (JObj fields) "url") as [u|]; [|done].
    by destruct (truthy u). }
  rewrite Ho. unfold or_else.
  assert (Ht : truthy (JStr name) = true).
  { simpl. by destruct name. }
  rewrite Ht. cbn [mbind result_bind]. unfold join. cbn [joinItems].
  destruct (match ord (prop (JObj fields) "source") (JStr "") with
            | JNull => Ok ""
            | _ => ToString (ord (prop (JObj fields) "source") (JStr ""))
            end) as [sa|]; [|done].
  cbn [mbind result_bind].
  destruct (match ord (prop (JObj fields) "subSource") (JStr "") with
            | JNull => Ok ""
            | _ => ToString (ord (prop (JObj fields) "subSource") (JStr ""))
            end) as [sb|]; [|done].
  cbn [mbind result_bind String.concat].
  by rewrite !append_assoc.
Qed.

(** X6. The id is a 31-bit hash and collides: two records that differ
    only in that the name of one reads [Aa] where the name of the other
    reads [BB] (and have no url) get the same id, so [normalizeAll]
    keeps the first of them only. *)
Theorem X6_ids_collide (f1 f2 : list (string * json)) (p q : string)
    (dateValue : json -> option Z) (clock : nat -> string) (out : list Signal) :
  prop (JObj f1) "source" = prop (JObj f2) "source" ->
  prop (JObj f1) "subSource" = prop (JObj f2) "subSource" ->
  oro (prop (JObj f1) "url") None = None ->
  oro (prop (JObj f2) "url") None = None ->
  prop (JObj f1) "name" = Some (JStr (p +:+ "Aa" +:+ q)) ->
  prop (JObj f2) "name" = Some (JStr (p +:+ "BB" +:+ q)) ->
  normalizeAll dateValue clock [JObj f1; JObj f2] = Ok out ->
  generateId (JObj f1) = generateId (JObj f2) /\
  exists s, out = [s] /\ normalizeSignal (clock 0%nat) (JObj f1) = Ok s.
Proof.
  intros Hsrc Hsub Hu1 Hu2 Hn1 Hn2 Hall.
  assert (Hid : generateId (JObj f1) = generateId (JObj f2)).
  { rewrite (generateId_named f1 _ Hu1 Hn1), (generateId_named f2 _ Hu2 Hn2).
    - rewrite Hsrc, Hsub.
      destruct (join "|" _) as [pre|]; [|done]. cbn [mbind result_bind].
      do 3 f_equal.
      rewrite (hashLoop_app pre), (hashLoop_app "|"), (hashLoop_app pre), (hashLoop_app "|").
      by rewrite hashLoop_Aa_BB.
    - clear. induction p; done.
    - clear. induction p; done. }
  split; [exact Hid|].
  unfold normalizeAll in Hall. cbn [normalizeLoop] in Hall.
  destruct (normalizeSignal (clock 0%nat) (JObj f1)) as [s1|] eqn:E1; [|done].
  cbn [mbind result_bind] in Hall.
  rewrite decide_False in Hall by apply not_elem_of_empty.
  destruct (normalizeSignal (clock 1%nat) (JObj f2)) as [s2|] eqn:E2; [|done].
  cbn [mbind result_bind] in Hall.
  apply normalizeSignal_fields in E2 as [G2 _].
  pose proof E1 as E1'. apply normalizeSignal_fields in E1' as [G1 _].
  assert (sig_id s2 = sig_id s1) by congruence.
  rewrite decide_True in Hall.
  - cbn in Hall. injection Hall as <-. eauto.
  - apply elem_of_union_l, elem_of_singleton. done.
Qed.

End Fingerprint.

(** ** Topic tags: their form, and that normalizing them again changes nothing *)

Section Tags.
Import JS Signals Canon.

Lemma toLowerChar_lower c : isLower (toLowerChar c) = true.
Proof. destruct c as [[] [] [] [] [] [] [] []]; reflexivity. Qed.

Lemma toLowerCase_lower s : allChars isLower (toLowerCase s) = true.
Proof.
  induction s as [|c r IH]; [done|].
  cbn [toLowerCase allChars]. by rewrite toLowerChar_lower, IH.
Qed.

Lemma trimStart_allChars p s : allChars p s = true -> allChars p (trimStart s) = true.
Proof.
  induction s as [|c r IH]; [done|]. cbn [trimStart].
  destruct (is_space c); [|done].
  cbn [allChars]. intros [_ Hr]%andb_prop. by apply IH.
Qed.

Lemma trimEnd_allChars p s : allChars p s = true -> allChars p (trimEnd s) = true.
Proof.
  induction s as [|c r IH]; [done|]. cbn [trimEnd allChars].
  intros [Hc Hr]%andb_prop.
  destruct (is_space c && String.eqb (trimEnd r) ""); [done|].
  cbn [allChars]. by rewrite Hc, IH.
Qed.

Lemma replaceSpaces_allChars p s : forall b,
  p "_"%char = true -> allChars p s = true -> allChars p (replaceSpaces b s) = true.
Proof.
  induction s as [|c r IH]; intros b Hu; [done|]. cbn [replaceSpaces allChars].
  intros [Hc Hr]%andb_prop.
  destruct (is_space c); [destruct b|]; cbn [allChars]; rewrite ?Hu, ?Hc; by apply IH.
Qed.

Lemma replaceSpaces_notSpace s : forall b, allChars notSpace (replaceSpaces b s) = true.
Proof.
  induction s as [|c r IH]; intros b; [done|]. cbn [replaceSpaces].
  destruct (is_space c) eqn:E; [destruct b|]; cbn [allChars]; rewrite ?IH; [done|done|].
  unfold notSpace. by rewrite E.
Qed.

Lemma normalizeTopics_form l : forall ss,
  normalizeTopics l = Ok ss ->
  Forall (fun t => allChars notSpace t = true /\ allChars isLower t = true) ss.
Proof.
  induction l as [|x l IH]; intros ss H; cbn [normalizeTopics] in H.
  - injection H as <-. constructor.
  - destruct (ToString x) as [s|]; [|done]. cbn [mbind result_bind] in H.
    destruct (normalizeTopics l) as [ss'|]; [|done]. cbn [mbind result_bind] in H.
    injection H as <-. constructor; [|by apply IH].
    split; [apply replaceSpaces_notSpace|].
    apply replaceSpaces_allChars; [done|].
    apply trimEnd_allChars, trimStart_allChars, toLowerCase_lower.
Qed.

Lemma includes_elem seen x : includes seen x = true <-> x ∈ seen.
Proof.
  unfold includes. rewrite existsb_exists. split.
  - intros (y & Hy & ->%String.eqb_eq). by apply list_elem_of_In.
  - intros Hx. exists x. split; [by apply list_elem_of_In|apply String.eqb_refl].
Qed.

Lemma uniq_elem l : forall seen x, x ∈ uniq seen l -> x ∈ l /\ x ∉ seen.
Proof.
  induction l as [|y l IH]; intros seen x; cbn [uniq]; [by intros ?%elem_of_nil|].
  destruct (includes seen y) eqn:E.
  - intros [? ?]%IH. split; [by right|done].
  - intros [->|Hx]%elem_of_cons.
    + split; [left|]. intros Hin%includes_elem. congruence.
    + apply IH in Hx as [? Hn]. split; [by right|].
      intros ?. apply Hn. by right.
Qed.

Lemma uniq_NoDup l : forall seen, NoDup (uniq seen l).
Proof.
  induction l as [|y l IH]; intros seen; cbn [uniq]; [constructor|].
  destruct (includes seen y); [apply IH|].
  apply NoDup_cons. split; [|apply IH].
  intros [_ Hn]%uniq_elem. apply Hn. left.
Qed.

Lemma uniq_id l : forall seen,
  NoDup l -> (forall x, x ∈ l -> x ∉ seen) -> uniq seen l = l.
Proof.
  induction l as [|y l IH]; intros seen Hnd Hdis; [done|]. cbn [uniq].
  apply NoDup_cons in Hnd as [Hy Hnd].
  destruct (includes seen y) eqn:E.
  - apply includes_elem in E. exfalso. apply (Hdis y); [left|done].
  - f_equal. apply IH; [done|]. intros x Hx [->|Hs]%elem_of_cons; [done|].
    apply (Hdis x); [by right|done].
Qed.

Lemma filter_elem {A} (f : A -> bool) l x : x ∈ List.filter f l <-> x ∈ l /\ f x = true.
Proof. rewrite !list_elem_of_In. apply filter_In. Qed.

Lemma filter_all {A} (f : A -> bool) l : Forall (fun x => f x = true) l -> List.filter f l = l.
Proof. induction 1 as [|x l Hx _ IH]; [done|]. cbn. by rewrite Hx, IH. Qed.

Lemma dedupeTopics_tags v ts :
  dedupeTopics v = Ok ts -> NoDup ts /\ Forall (fun t => isTag t = true) ts.
Proof.
  unfold dedupeTopics. intros H.
  destruct v; try (injection H as <-; split; constructor).
  destruct (normalizeTopics l) as [ss|] eqn:E; [|done].
  cbn [mbind result_bind] in H. injection H as <-.
  split; [apply uniq_NoDup|].
  apply normalizeTopics_form in E. rewrite Forall_forall in E.
  apply Forall_forall. intros t [Ht _]%uniq_elem.
  apply filter_elem in Ht as [Hin Hk]. destruct (E t Hin) as [Hs Hl].
  unfold isTag. by rewrite Hk, Hs, Hl.
Qed.

Lemma toLowerCase_id s : allChars isLower s = true -> toLowerCase s = s.
Proof.
  induction s as [|c r IH]; [done|]. cbn [allChars toLowerCase].
  intros [Hc Hr]%andb_prop. unfold isLower in Hc. apply Ascii.eqb_eq in Hc.
  by rewrite Hc, IH.
Qed.

Lemma trimEnd_id s : allChars notSpace s = true -> trimEnd s = s.
Proof.
  induction s as [|c r IH]; [done|]. cbn [allChars trimEnd].
  intros [Hc Hr]%andb_prop. unfold notSpace in Hc. apply negb_true_iff in Hc.
  by rewrite Hc, IH.
Qed.

Lemma trim_id s : allChars notSpace s = true -> trim s = s.
Proof.
  intros H. unfold trim.
  assert (E : trimStart s = s).
  { destruct s as [|c r]; [done|]. cbn [allChars trimStart] in *.
    apply andb_prop in H as [Hc _]. unfold notSpace in Hc.
    apply negb_true_iff in Hc. by rewrite Hc. }
  rewrite E. by apply trimEnd_id.
Qed.

Lemma replaceSpaces_id s : forall b, allChars notSpace s = true -> replaceSpaces b s = s.
Proof.
  induction s as [|c r IH]; intros b; [done|]. cbn [allChars replaceSpaces].
  intros [Hc Hr]%andb_prop. unfold notSpace in Hc. apply negb_true_iff in Hc.
  by rewrite Hc, IH.
Qed.

Lemma normalizeTopics_tags ts :
  Forall (fun t => isTag t = true) ts -> normalizeTopics (map JStr ts) = Ok ts.
Proof.
  induction 1 as [|t ts Ht _ IH]; [done|].
  cbn [map normalizeTopics ToString mbind result_bind]. rewrite IH.
  cbn [mbind result_bind].
  unfold isTag in Ht. apply andb_prop in Ht as [[_ Hs]%andb_prop Hl].
  by rewrite (toLowerCase_id t Hl), (trim_id t Hs), (replaceSpaces_id t false Hs).
Qed.

Lemma dedupeTopics_again ts :
  NoDup ts -> Forall (fun t => isTag t = true) ts ->
  dedupeTopics (JArr (map JStr ts)) = Ok ts.
Proof.
  intros Hnd Htags. cbn [dedupeTopics]. rewrite (normalizeTopics_tags ts Htags).
  cbn [mbind result_bind]. rewrite filter_all.
  - rewrite uniq_id; [done|done|]. intros x _. apply not_elem_of_nil.
  - eapply Forall_impl; [exact Htags|]. intros t Ht.
    unfold isTag in Ht. by apply andb_prop in Ht as [[? _]%andb_prop _].
Qed.

(** X7. The topics of every signal are tags in one form: no tag occurs
    twice, and each has 1 to 49 characters, no white space and no letter
    left to lower-case. *)
Theorem X7_topics_are_tags (now : string) (raw : json) (s : Signal) :
  normalizeSignal now raw = Ok s ->
  NoDup (topics s) /\ Forall (fun t => isTag t = true) (topics s).
Proof.
  intros (_ & _ & Ht & _)%normalizeSignal_fields. by apply dedupeTopics_tags in Ht.
Qed.

(** X8. [dedupeTopics] is idempotent: applied to the tags it returned,
    it returns them unchanged, in the same order. *)
Theorem X8_dedupeTopics_idempotent (topics : json) (ts : list string) :
  dedupeTopics topics = Ok ts -> dedupeTopics (JArr (map JStr ts)) = Ok ts.
Proof. intros [Hnd Htags]%dedupeTopics_tags. by apply dedupeTopics_again. Qed.

End Tags.

(** ** The batch: which records are kept, in what order, and when it fails *)

Section Batch.
Import JS Signals Canon.
Variable dateValue : json -> option Z.
Variable clock : nat -> string.

(** What the loop adds: exactly the normalizations of the records whose
    id was neither seen before the loop nor is the id of an earlier
    record of the loop. *)
Lemma normalizeLoop_first raws : forall i0 seen acc out,
  normalizeLoop clock i0 raws seen acc = Ok out ->
  exists new, out = acc ++ new /\ (length new <= length raws)%nat /\
    forall s, s ∈ new <->
      exists k raw, raws !! k = Some raw /\
        normalizeSignal (clock (i0 + k)) raw = Ok s /\
        (sig_id s ∉ seen) /\
        forall j raw' s', (j < k)%nat -> raws !! j = Some raw' ->
          normalizeSignal (clock (i0 + j)) raw' = Ok s' -> sig_id s' <> sig_id s.
Proof.
  induction raws as [|raw rest IH]; intros i0 seen acc out H; cbn [normalizeLoop] in H.
  - injection H as <-. exists []. rewrite app_nil_r. split; [done|]. split; [done|].
    intros s. split; [by intros ?%elem_of_nil|]. by intros (k & r & ? & _).
  - destruct (normalizeSignal (clock i0) raw) as [sg|] eqn:E; [|done].
    cbn [mbind result_bind] in H. case_decide as Hseen.
    + destruct (IH _ _ _ _ H) as (new & -> & Hlen & Hchar).
      exists new. split; [done|]. split; [cbn; lia|].
      intros s. rewrite Hchar. split.
      * intros (k & r & Hk & Hs & Hns & Hfirst).
        exists (S k), r. rewrite Nat.add_succ_r. repeat split; try done.
        intros [|j] r' s' Hj Hr' Hs'.
        -- rewrite Nat.add_0_r in Hs'. injection Hr' as <-.
           rewrite E in Hs'. injection Hs' as <-.
           intros Heq. apply Hns. by rewrite <- Heq.
        -- rewrite Nat.add_succ_r in Hs'. eapply Hfirst; [|done..]. lia.
      * intros ([|k] & r & Hk & Hs & Hns & Hfirst).
        -- rewrite Nat.add_0_r in Hs. injection Hk as <-.
           rewrite E in Hs. injection Hs as <-. done.
        -- exists k, r. rewrite Nat.add_succ_r in Hs. repeat split; try done.
           intros j r' s' Hj Hr' Hs'.
           apply (Hfirst (S j) r' s'); [lia|done|by rewrite Nat.add_succ_r].
    + destruct (IH _ _ _ _ H) as (new & -> & Hlen & Hchar).
      exists (sg :: new). rewrite <- app_assoc. split; [done|]. split; [cbn; lia|].
      intros s. rewrite elem_of_cons, Hchar. split.
      * intros [->|(k & r & Hk & Hs & Hns & Hfirst)].
        -- exists 0%nat, raw. rewrite Nat.add_0_r. repeat split; try done. lia.
        -- exists (S k), r. rewrite Nat.add_succ_r. repeat split; try done.
           ++ intros ?. apply Hns. by apply elem_of_union_r.
           ++ intros [|j] r' s' Hj Hr' Hs'.
              ** rewrite Nat.add_0_r in Hs'. injection Hr' as <-.
                 rewrite E in Hs'. injection Hs' as <-.
                 intros Heq. apply Hns. apply elem_of_union_l, elem_of_singleton. done.
              ** rewrite Nat.add_succ_r in Hs'. eapply Hfirst; [|done..]. lia.
      * intros ([|k] & r & Hk & Hs & Hns & Hfirst).
        -- rewrite Nat.add_0_r in Hs. injection Hk as <-.
           rewrite E in Hs. injection Hs as <-. by left.
        -- right. exists k, r. rewrite Nat.add_succ_r in Hs. repeat split; try done.
           ++ intros [Heq%elem_of_singleton|?]%elem_of_union; [|done].
              apply (Hfirst 0%nat raw sg); [lia|done|by rewrite Nat.add_0_r|done].
           ++ intros j r' s' Hj Hr' Hs'.
              apply (Hfirst (S j) r' s'); [lia|done|by rewrite Nat.add_succ_r].
Qed.

(** X9. First wins: the signals [normalizeAll] returns are exactly the
    normalizations of the records that no earlier record shares its id
    with; a later record with the id of an earlier one is dropped, not
    merged. So no two signals of the result share an id, and there are at
    most as many signals as records. *)
Theorem X9_first_record_of_each_id (raws : list json) (out : list Signal) :
  normalizeAll dateValue clock raws = Ok out ->
  NoDup (map sig_id out) /\ (length out <= length raws)%nat /\
  forall s, s ∈ out <->
    exists i raw, raws !! i = Some raw /\ normalizeSignal (clock i) raw = Ok s /\
      forall j raw' s', (j < i)%nat -> raws !! j = Some raw' ->
        normalizeSignal (clock j) raw' = Ok s' -> sig_id s' <> sig_id s.
Proof.
  intros H. split; [by eapply normalizeAll_NoDup|].
  unfold normalizeAll in H.
  destruct (normalizeLoop clock 0 raws ∅ []) as [l|] eqn:E; [|done].
  cbn [mbind result_bind] in H. injection H as <-.
  apply normalizeLoop_first in E as (new & -> & Hlen & Hchar). cbn [app].
  split.
  - by rewrite (Permutation_length (sort_perm _ new)).
  - intros s. rewrite sort_perm, Hchar. cbn [Nat.add].
    split; intros (i & raw & Hi & Hs & Hrest); exists i, raw.
    + by destruct Hrest.
    + by repeat split.
Qed.

Lemma normalizeLoop_raises raws : forall k raw i0 seen acc,
  raws !! k = Some raw -> normalizeSignal (clock (i0 + k)) raw = Throw TypeError ->
  normalizeLoop clock i0 raws seen acc = Throw TypeError.
Proof.
  induction raws as [|r rest IH]; intros k raw i0 seen acc Hk Hraise; [done|].
  cbn [normalizeLoop].
  destruct (normalizeSignal (clock i0) r) as [sg|[]] eqn:E; [|done].
  cbn [mbind result_bind].
  destruct k as [|k].
  - rewrite Nat.add_0_r in Hraise. injection Hk as <-. by rewrite E in Hraise.
  - rewrite Nat.add_succ_r in Hraise. cbn in Hk.
    case_decide; by eapply (IH k raw (S i0)).
Qed.

(** X10. One bad record fails the batch: if [normalizeSignal] raises on
    any record, [normalizeAll] raises and returns no signal at all. *)
Theorem X10_one_bad_record_fails_the_batch (raws : list json) (i : nat) (raw : json) :
  raws !! i = Some raw ->
  normalizeSignal (clock i) raw = Throw TypeError ->
  normalizeAll dateValue clock raws = Throw TypeError.
Proof.
  intros Hi Hraise. unfold normalizeAll.
  by rewrite (normalizeLoop_raises raws i raw 0%nat ∅ [] Hi Hraise).
Qed.

Lemma insert_ext_in {A} (cmp cmp' : A -> A -> Z) x l :
  (forall y, y ∈ l -> cmp x y = cmp' x y) -> insert cmp x l = insert cmp' x l.
Proof.
  induction l as [|y l IH]; intros H; [done|]. cbn [insert].
  rewrite (H y) by left. destruct (cmp' x y <=? 0); [done|].
  f_equal. apply IH. intros z Hz. apply H. by right.
Qed.

Lemma sort_ext_in {A} (cmp cmp' : A -> A -> Z) l :
  (forall x y, x ∈ l -> y ∈ l -> cmp x y = cmp' x y) -> sort cmp l = sort cmp' l.
Proof.
  induction l as [|x l IH]; intros H; [done|]. cbn [sort].
  rewrite IH by (intros; apply H; by right).
  apply insert_ext_in. intros y Hy. rewrite sort_perm in Hy.
  apply H; [left|by right].
Qed.

(** X11. Newest first: when the date of every signal of the result has
    a time value, the result is in descending order of that value. *)
Theorem X11_newest_first (raws : list json) (out : list Signal) :
  normalizeAll dateValue clock raws = Ok out ->
  Forall (fun s => is_Some (dateValue (date s))) out ->
  forall i a b ta tb,
    out !! i = Some a -> out !! S i = Some b ->
    dateValue (date a) = Some ta -> dateValue (date b) = Some tb -> tb <= ta.
Proof.
  intros H Hdates i a b ta tb Ha Hb Hta Htb.
  unfold normalizeAll in H.
  destruct (normalizeLoop clock 0 raws ∅ []) as [l|]; [|done].
  cbn [mbind result_bind] in H. injection H as <-.
  set (key := fun s : Signal => default 0 (dateValue (date s))).
  assert (Hl : Forall (fun s => is_Some (dateValue (date s))) l).
  { by rewrite <- (sort_perm (byDate dateValue) l). }
  assert (E : sort (byDate dateValue) l = sort (fun x y => key y - key x) l).
  { apply sort_ext_in. intros x y Hx Hy. rewrite Forall_forall in Hl.
    destruct (Hl x Hx) as [tx Hx'], (Hl y Hy) as [ty Hy'].
    unfold byDate, key. by rewrite Hx', Hy'. }
  rewrite E in Ha, Hb.
  pose proof (Sorted_adjacent _ _ i a b (sort_sorted key l) Ha Hb) as Hle.
  unfold key in Hle. by rewrite Hta, Htb in Hle.
Qed.

Lemma ord_truthy o d : truthy d = true -> truthy (ord o d) = true.
Proof. intros Hd. unfold ord. destruct o as [v|]; [|done]. by destruct (truthy v) eqn:E. Qed.

(** X12. No signal lacks its classification: [source], [subSource],
    [sentiment] and [signalType] of every signal are truthy (never
    [null], never the empty string), whatever the record left out. *)
Theorem X12_classification_never_empty (now : string) (raw : json) (s : Signal) :
  normalizeSignal now raw = Ok s ->
  truthy (source s) = true /\ truthy (subSource s) = true /\
  truthy (sentiment s) = true /\ truthy (signalType s) = true.
Proof.
  intros H. pose proof (signalType_truthy _ _ _ H) as Hty.
  apply normalizeSignal_fields in H as (_ & _ & _ & _ & -> & -> & _ & _ & ->).
  repeat split; try done; by apply ord_truthy.
Qed.

End Batch.

(** ** Build ideas: what a reply yields and what a failure costs *)

Section IdeasFacts.
Import JS Signals BuildIdeas.

Lemma ideaOf_ok idea :
  idea <> JNull -> exists i, ideaOf idea = Ok i /\ wellNamed i.
Proof.
  intros Hn. unfold ideaOf, deref. destruct idea; try done;
    (eexists; split; [reflexivity|]); split; cbn [name difficulty]; by apply ord_truthy.
Qed.

Lemma mapIdeas_ok ideas :
  forallb (fun i => match i with JNull => false | _ => true end) ideas = true ->
  exists l, mapIdeas ideas = Ok l /\ length l = length ideas /\ Forall wellNamed l.
Proof.
  induction ideas as [|idea rest IH]; intros H.
  - by exists [].
  - cbn [forallb] in H. apply andb_prop in H as [Hi Hrest].
    destruct (IH Hrest) as (l & El & Hlen & Hall).
    destruct (ideaOf_ok idea) as (i & Ei & Hi'); [by destruct idea|].
    exists (i :: l). cbn [mapIdeas]. rewrite Ei, El. cbn [mbind result_bind].
    split; [done|]. split; [cbn; by rewrite Hlen|by constructor].
Qed.

Lemma mapIdeas_null ideas : JNull ∈ ideas -> mapIdeas ideas = Throw TypeError.
Proof.
  induction ideas as [|idea rest IH]; intros H; [by apply elem_of_nil in H|].
  cbn [mapIdeas]. apply elem_of_cons in H as [<-|H]; [done|].
  destruct (ideaOf idea) as [i|[]]; [|done]. cbn [mbind result_bind].
  by rewrite (IH H).
Qed.

(** X13. A reply that is an object whose [ideas] is an array without a
    [null] yields one idea per entry, whatever the entries hold, and every
    idea has a name and a difficulty that are truthy: what the model left
    out is defaulted. The number of ideas is not checked. *)
Theorem X13_usable_reply_gives_named_ideas (r : reply) :
  usable r = true ->
  exists ideas, generateIdeasForNarrative r = inr ideas /\
    length ideas = length (offered r) /\ Forall wellNamed ideas.
Proof.
  intros H. destruct r as [[| | | | |fields]|]; try done.
  unfold usable in H. unfold offered, generateIdeasForNarrative, prop.
  destruct (assoc "ideas" fields) as [[| | | |ideas|]|]; try done.
  destruct (mapIdeas_ok ideas H) as (l & -> & Hlen & Hall). by exists l.
Qed.

Section Loop.
Context {Narrative : Type} (askGrok : nat -> Narrative -> reply).

Lemma enrichLoop_imap (ns : list Narrative) : forall i acc,
  enrichLoop askGrok i ns acc =
  acc ++ imap (fun k n => {| narrative := n; buildIdeas := ideasFor askGrok (i + k) n |}) ns.
Proof.
  induction ns as [|n rest IH]; intros i acc; cbn [enrichLoop imap].
  - by rewrite app_nil_r.
  - rewrite IH, <- app_assoc. cbn [app]. rewrite Nat.add_0_r. do 2 f_equal.
    apply imap_ext. intros k x _. cbn. by rewrite Nat.add_succ_r.
Qed.

(** X14. Every narrative comes back, in the order given, each with the
    ideas of its own call: the entry at position [i] holds the [i]-th
    narrative and the ideas its reply yields, none where that call failed.
    So a failure for one narrative costs the others nothing. *)
Theorem X14_every_narrative_comes_back (ns : list Narrative) :
  map narrative (generateBuildIdeas askGrok ns) = ns /\
  forall i n, ns !! i = Some n ->
    generateBuildIdeas askGrok ns !! i =
    Some {| narrative := n; buildIdeas := ideasFor askGrok i n |}.
Proof.
  unfold generateBuildIdeas. rewrite enrichLoop_imap. cbn [app Nat.add]. split.
  - apply list_eq. intros i. rewrite list_lookup_fmap, list_lookup_imap.
    by destruct (ns !! i).
  - intros i n Hi. by rewrite list_lookup_imap, Hi.
Qed.

(** X15. One [null] among the ideas of a reply discards them all: the
    mapping raises, the loop catches it, and the narrative is left with no
    ideas although the other entries were good. *)
Theorem X15_one_null_idea_discards_all
    (ns : list Narrative) (i : nat) (n : Narrative)
    (fields : list (string * json)) (ideas : list json) :
  ns !! i = Some n ->
  askGrok i n = answered (JObj fields) ->
  assoc "ideas" fields = Some (JArr ideas) ->
  JNull ∈ ideas ->
  generateIdeasForNarrative (askGrok i n) = inl (Raised TypeError) /\
  generateBuildIdeas askGrok ns !! i = Some {| narrative := n; buildIdeas := [] |}.
Proof.
  intros Hi Hr Hideas Hnull.
  assert (E : generateIdeasForNarrative (askGrok i n) = inl (Raised TypeError)).
  { rewrite Hr. unfold generateIdeasForNarrative, prop.
    by rewrite Hideas, (mapIdeas_null ideas Hnull). }
  split; [done|].
  unfold generateBuildIdeas. rewrite enrichLoop_imap. cbn [app Nat.add].
  rewrite list_lookup_imap, Hi. cbn. unfold ideasFor. by rewrite E.
Qed.

End Loop.
End IdeasFacts.

(** ** Reading the history *)

Section HistoryFacts.
Import Store StoreQueries.
Context {Signal Narrative Stats Meta : Type}.

Lemma compare_lt_trans a : forall b c,
  String.compare a b = Lt -> String.compare b c = Lt -> String.compare a c = Lt.
Proof.
  induction a as [|x a IH]; intros [|y b] [|z c]; cbn [String.compare]; try done.
  unfold Ascii.compare.
  destruct (N.compare_spec (N_of_ascii x) (N_of_ascii y)) as [Exy|Lxy|Gxy]; try done;
  destruct (N.compare_spec (N_of_ascii y) (N_of_ascii z)) as [Eyz|Lyz|Gyz]; try done;
  intros H1 H2.
  - rewrite Exy, Eyz, N.compare_refl. by eapply IH.
  - by rewrite Exy, (proj2 (N.compare_lt_iff _ _) Lyz).
  - by rewrite <- Eyz, (proj2 (N.compare_lt_iff _ _) Lxy).
  - by rewrite (proj2 (N.compare_lt_iff _ _) (N.lt_trans _ _ _ Lxy Lyz)).
Qed.

#[local] Instance newer_trans : Transitive newer.
Proof. intros a b c Hab Hbc. unfold newer in *. by eapply compare_lt_trans. Qed.

Lemma insert_sorted_total {A} (cmp : A -> A -> Z) x l :
  (forall a b, 0 < cmp a b -> cmp b a <= 0) ->
  Sorted (fun a b => cmp a b <= 0) l -> Sorted (fun a b => cmp a b <= 0) (JS.insert cmp x l).
Proof.
  intros Htot. induction 1 as [|y l Hs IH Hhd]; cbn [JS.insert].
  - by repeat constructor.
  - destruct (cmp x y <=? 0) eqn:E.
    + constructor; [by constructor|]. constructor. lia.
    + constructor; [done|].
      destruct l as [|z l]; cbn [JS.insert] in *.
      * constructor. apply Htot. lia.
      * destruct (cmp x z <=? 0); constructor; [apply Htot; lia|by inversion Hhd].
Qed.

Lemma sort_sorted_total {A} (cmp : A -> A -> Z) l :
  (forall a b, 0 < cmp a b -> cmp b a <= 0) ->
  Sorted (fun a b => cmp a b <= 0) (JS.sort cmp l).
Proof.
  intros Htot. induction l; cbn [JS.sort]; [constructor|by apply insert_sorted_total].
Qed.

Lemma byCodeUnits_total a b : 0 < byCodeUnits a b -> byCodeUnits b a <= 0.
Proof.
  unfold byCodeUnits. rewrite (String.compare_antisym b a).
  destruct (String.compare a b); cbn; lia.
Qed.

Lemma Sorted_strict l :
  NoDup l -> Sorted (fun a b => byCodeUnits a b <= 0) l ->
  Sorted (fun a b => String.compare a b = Lt) l.
Proof.
  intros Hnd. induction 1 as [|x l Hs IH Hhd]; [constructor|].
  apply NoDup_cons in Hnd as [Hx Hnd]. constructor; [by apply IH|].
  destruct Hhd as [|y l Hxy]; constructor.
  unfold byCodeUnits in Hxy. destruct (String.compare x y) eqn:E; [|done|lia].
  apply String.compare_eq_iff in E as ->. destruct Hx. by left.
Qed.

Lemma filter_NoDup {A} (f : A -> bool) l : NoDup l -> NoDup (List.filter f l).
Proof.
  induction 1 as [|x l Hx _ IH]; cbn [List.filter]; [constructor|].
  destruct (f x); [|done]. constructor; [|done]. rewrite filter_elem. by intros [? _].
Qed.

Lemma omap_readable (d : gmap string (file Signal Narrative Stats Meta)) names :
  Forall2 (fun f doc => d !! f = Some doc /\ doc <> Unreadable)
          (List.filter (readable d) names) (omap (fun f => d !! f ≫= parsed) names).
Proof.
  induction names as [|f names IH]; [constructor|].
  cbn [omap list_omap List.filter]. unfold readable at 1.
  destruct (d !! f) as [[data|data|]|] eqn:E; cbn; try done;
    (constructor; [by split|done]).
Qed.

Lemma omap_all_readable (d : gmap string (file Signal Narrative Stats Meta)) names :
  Forall (fun f => readable d f = true) names ->
  length (omap (fun f => d !! f ≫= parsed) names) = length names.
Proof.
  induction 1 as [|f names Hf _ IH]; [done|].
  cbn [omap list_omap]. unfold readable in Hf.
  destruct (d !! f ≫= parsed); [|done]. cbn. by rewrite IH.
Qed.

Lemma slice0_take {A} (limit : Z) (l : list A) :
  exists k, slice0 limit l = take k l /\
    Z.of_nat (length (slice0 limit l)) =
      (let count := Z.of_nat (length l) in
       if limit <? 0 then Z.max 0 (count + limit) else Z.min limit count).
Proof.
  unfold slice0. cbn zeta. destruct (limit <? 0) eqn:E; eexists; (split; [done|]);
    rewrite length_take; lia.
Qed.

(** The files a history function reads are the most recent ones. *)
Lemma history_mostRecent (keep : string -> bool) (limit : Z)
    (d : gmap string (file Signal Narrative Stats Meta)) :
  mostRecent keep limit d (omap (fun f => d !! f ≫= parsed) (historyFiles keep limit d)).
Proof.
  exists (historyFiles keep limit d). unfold historyFiles.
  set (all := List.filter keep (readdirSync d)).
  set (desc := reverse (JS.sort byCodeUnits all)).
  assert (Hperm : desc ≡ₚ all).
  { unfold desc. by rewrite reverse_Permutation, sort_perm. }
  assert (Hall : forall f, f ∈ all <-> is_Some (d !! f) /\ keep f = true).
  { intros f. unfold all, readdirSync. by rewrite filter_elem, elem_of_elements, elem_of_dom. }
  assert (Hsorted : StronglySorted newer desc).
  { apply Sorted_StronglySorted; [apply _|].
    unfold desc. apply (Sorted_reverse (fun a b => String.compare a b = Lt)).
    apply Sorted_strict.
    - rewrite sort_perm. apply filter_NoDup, NoDup_elements.
    - apply sort_sorted_total, byCodeUnits_total. }
  destruct (slice0_take limit desc) as (k & -> & Hlen).
  rewrite length_take in Hlen.
  rewrite <- (take_drop k desc) in Hsorted. apply StronglySorted_app in Hsorted as (Hcross & Htake & _).
  assert (Hsub : forall f, f ∈ take k desc -> f ∈ all).
  { intros f Hf. rewrite <- Hperm. rewrite <- (take_drop k desc). apply elem_of_app. by left. }
  split; [|split; [|split; [|split; [|split]]]].
  - apply Forall_forall. intros f Hf. apply Hsub, Hall in Hf. tauto.
  - by apply StronglySorted_Sorted.
  - rewrite length_take. rewrite Hlen. by rewrite (Permutation_length Hperm).
  - intros f g Hf Hkeep Hnot Hg. apply Hcross; [done|].
    assert (Hin : f ∈ desc) by (rewrite Hperm; by apply Hall).
    rewrite <- (take_drop k desc) in Hin. apply elem_of_app in Hin as [?|?]; done.
  - apply omap_readable.
  - apply omap_all_readable.
Qed.

(** X16. The history functions read the most recent snapshot files of
    their kind, newest first by file name, never the [latest] alias, and
    return the documents of those of them from which a document comes, in
    that order. A [limit] that is not negative bounds the number of files
    read, so files that give no document count against it; a negative
    [limit] leaves out that many of the oldest instead of reading none.
    A data directory that does not exist gives the empty history. *)
Theorem X16_history_is_most_recent (limit : Z)
    (d : gmap string (file Signal Narrative Stats Meta)) :
  mostRecent isSignalSnapshot limit d (loadSignalHistory limit (Some d)) /\
  mostRecent isNarrativeSnapshot limit d (loadNarrativeHistory limit (Some d)) /\
  loadSignalHistory (Signal := Signal) (Narrative := Narrative)
    (Stats := Stats) (Meta := Meta) limit None = [] /\
  loadNarrativeHistory (Signal := Signal) (Narrative := Narrative)
    (Stats := Stats) (Meta := Meta) limit None = [].
Proof. repeat split; try done; apply history_mostRecent. Qed.

End HistoryFacts.

(** ** Saving one kind, reading the other; counting the snapshots *)

Section StoreMore.
Import Store StoreQueries.
Context {Signal Narrative Stats Meta : Type}.

Lemma isSignalSnapshot_narrativesFile now : isSignalSnapshot (narrativesFile now) = false.
Proof. reflexivity. Qed.

Lemma isNarrativeSnapshot_signalsFile now : isNarrativeSnapshot (signalsFile now) = false.
Proof. reflexivity. Qed.

Lemma filter_perm {A} (f : A -> bool) l1 l2 :
  l1 ≡ₚ l2 -> List.filter f l1 ≡ₚ List.filter f l2.
Proof.
  induction 1 as [|x l1 l2 _ IH|x y l|l1 l2 l3 _ IH1 _ IH2]; cbn [List.filter].
  - done.
  - destruct (f x); by rewrite IH.
  - destruct (f x), (f y); try done. apply perm_swap.
  - by etrans.
Qed.

(** The names a write adds to those that [keep] admits. *)
Lemma names_insert (keep : string -> bool)
    (d : gmap string (file Signal Narrative Stats Meta)) path f :
  List.filter keep (readdirSync (<[path := f]> d)) ≡ₚ
  (if decide (is_Some (d !! path)) then [] else if keep path then [path] else [])
  ++ List.filter keep (readdirSync d).
Proof.
  unfold readdirSync. rewrite dom_insert_L. case_decide as Hin.
  - apply elem_of_dom in Hin.
    replace ({[path]} ∪ dom d) with (dom d); [done|].
    apply leibniz_equiv. symmetry. apply subseteq_union_1. by apply singleton_subseteq_l.
  - rewrite (filter_perm keep _ _ (elements_union_singleton (dom d) path
              (fun H => Hin (proj1 (elem_of_dom d path) H)))).
    cbn [List.filter]. by destruct (keep path).
Qed.

Lemma sort_unique l1 l2 :
  NoDup l1 -> l1 ≡ₚ l2 -> JS.sort byCodeUnits l1 = JS.sort byCodeUnits l2.
Proof.
  intros Hnd Hperm.
  assert (Hs : forall l, NoDup l ->
            StronglySorted (fun a b => String.compare a b = Lt) (JS.sort byCodeUnits l)).
  { intros l Hl. apply Sorted.Sorted_StronglySorted.
    - intros a b c. apply compare_lt_trans.
    - apply Sorted_strict; [by rewrite sort_perm|].
      apply sort_sorted_total, byCodeUnits_total. }
  apply (StronglySorted_unique_strong (fun a b => String.compare a b = Lt)).
  - intros a b _ _ Hab Hba. rewrite String.compare_antisym, Hba in Hab. done.
  - by apply Hs.
  - apply Hs. by rewrite <- Hperm.
  - by rewrite !sort_perm.
Qed.

(** A write to a file that [keep] does not admit changes nothing a
    history function reads. *)
Lemma history_frame (keep : string -> bool) (limit : Z)
    (d : gmap string (file Signal Narrative Stats Meta)) path f :
  keep path = false ->
  omap (fun n => <[path := f]> d !! n ≫= parsed) (historyFiles keep limit (<[path := f]> d)) =
  omap (fun n => d !! n ≫= parsed) (historyFiles keep limit d).
Proof.
  intros Hkeep.
  assert (E : historyFiles keep limit (<[path := f]> d) = historyFiles keep limit d).
  { unfold historyFiles. f_equal. f_equal. apply sort_unique.
    - apply filter_NoDup, NoDup_elements.
    - rewrite names_insert, Hkeep. by case_decide. }
  rewrite E.
  assert (Hall : Forall (fun n => keep n = true) (historyFiles keep limit d)).
  { unfold historyFiles, slice0. apply Forall_forall. intros n Hn.
    assert (Hin : n ∈ reverse (JS.sort byCodeUnits (List.filter keep (readdirSync d)))).
    { destruct (limit <? 0); apply elem_of_take in Hn as (i & Hi & _);
        by eapply list_elem_of_lookup_2. }
    rewrite elem_of_reverse, sort_perm, filter_elem in Hin. by destruct Hin. }
  clear E. induction Hall as [|n names Hn _ IH]; [done|].
  cbn [omap list_omap]. rewrite IH. rewrite lookup_insert_ne; [done|].
  intros <-. congruence.
Qed.

Lemma count_frame (keep : string -> bool)
    (d : gmap string (file Signal Narrative Stats Meta)) path f :
  keep path = false ->
  length (List.filter keep (readdirSync (<[path := f]> d))) =
  length (List.filter keep (readdirSync d)).
Proof. intros Hkeep. rewrite names_insert, Hkeep. by case_decide. Qed.

(** X17. Saving narratives changes nothing that is read about signals:
    the latest signals, the signal history for every [limit], the number
    of signal snapshots and whether there are latest signals are what they
    were, whatever the timestamp. *)
Theorem X17_saving_narratives_leaves_signals
    (now now' : string) (narratives : list Narrative) (stats : Stats) (limit : Z)
    (d : gmap string (file Signal Narrative Stats Meta)) :
  let d' := run (saveNarratives now now' narratives stats).1 d in
  loadLatestSignals d' = loadLatestSignals d /\
  loadSignalHistory limit (Some d') = loadSignalHistory limit (Some d) /\
  signalSnapshots (getStorageStats (Some d')) = signalSnapshots (getStorageStats (Some d)) /\
  hasLatestSignals (getStorageStats (Some d')) = hasLatestSignals (getStorageStats (Some d)).
Proof.
  cbn [saveNarratives fst run fold_left perform]. set (data := NarrativeFile _).
  assert (L1 : signalsLatest <> narrativesFile now) by done.
  assert (L2 : signalsLatest <> narrativesLatest) by done.
  assert (E : forall d0 : gmap string (file Signal Narrative Stats Meta),
            <[narrativesLatest := data]> (<[narrativesFile now := data]> d0) !! signalsLatest
            = d0 !! signalsLatest).
  { intros d0. by rewrite !lookup_insert_ne. }
  split; [unfold loadLatestSignals; by rewrite E|]. split; [|split].
  - unfold loadSignalHistory. rewrite history_frame by done.
    by rewrite history_frame by apply isSignalSnapshot_narrativesFile.
  - cbn [getStorageStats signalSnapshots]. rewrite count_frame by done.
    by rewrite count_frame by apply isSignalSnapshot_narrativesFile.
  - cbn [getStorageStats hasLatestSignals]. by rewrite E.
Qed.

Lemma signalsFile_iso_snapshot now : isISO now = true -> isSignalSnapshot (signalsFile now) = true.
Proof.
  intros Ha. unfold isSignalSnapshot. apply andb_true_intro. split.
  - apply prefix_append.
  - apply negb_true_iff, String.eqb_neq. intros H.
    change signalsLatest with (signalsFile "latest") in H. unfold signalsFile in H.
    apply (f_equal String.length) in H. rewrite !append_length, !dashes_length in H.
    rewrite (matches_length _ _ Ha) in H. discriminate H.
Qed.

(** X18. What [saveSignals] leaves behind: the latest signals and the
    snapshot of the call both hold the document of the call. A reader
    finds the signals of the call under [signals], whatever [meta] holds;
    under [timestamp] and [signalCount] it finds the second reading of the
    clock and the number of signals, unless [meta] has a key of that name,
    whose value it finds instead. There is one more signal snapshot unless
    a snapshot of that timestamp was there already; and nothing that is
    read about narratives has changed. *)
Theorem X18_saving_signals (own : Meta -> string -> option JS.json)
    (now now' : string) (signals : list Signal) (meta : Meta) (limit : Z)
    (d : gmap string (file Signal Narrative Stats Meta)) :
  isISO now = true ->
  let d' := run (saveSignals now now' signals meta).1 d in
  exists data,
    loadLatestSignals d' = Some (SignalFile data) /\
    d' !! (saveSignals (Narrative := Narrative) (Stats := Stats) now now' signals meta).2
      = Some (SignalFile data) /\
    Store.signals data = signals /\
    timestampOf own data = default (JS.JStr now') (own meta "timestamp") /\
    signalCountOf own data
      = default (JS.JNum (Z.of_nat (length signals))) (own meta "signalCount") /\
    getStorageStats (Some d') =
      {| signalSnapshots :=
           (if decide (is_Some (d !! signalsFile now)) then 0 else 1)
           + signalSnapshots (getStorageStats (Some d));
         narrativeSnapshots := narrativeSnapshots (getStorageStats (Some d));
         hasLatestSignals := Some true;
         hasLatestNarratives := hasLatestNarratives (getStorageStats (Some d)) |} /\
    loadLatestNarratives d' = loadLatestNarratives d /\
    loadNarrativeHistory limit (Some d') = loadNarrativeHistory limit (Some d).
Proof.
  intros Hiso. cbn [saveSignals fst snd run fold_left perform]. cbn zeta.
  eexists.
  pose proof (signalsFile_iso_snapshot now Hiso) as Hsnap.
  assert (Hne : signalsFile now <> signalsLatest).
  { intros H. rewrite H in Hsnap. done. }
  assert (L1 : narrativesLatest <> signalsFile now) by done.
  assert (L2 : narrativesLatest <> signalsLatest) by done.
  unfold loadLatestSignals, loadLatestNarratives.
  split; [by rewrite lookup_insert_eq|].
  split; [rewrite lookup_insert_ne by done; apply lookup_insert_eq|].
  do 3 (split; [reflexivity|]).
  split; [|split].
  - unfold getStorageStats. f_equal.
    + rewrite count_frame by done.
      rewrite (Permutation_length (names_insert _ _ _ _)), Hsnap. by case_decide.
    + rewrite count_frame by done. by rewrite count_frame by apply isNarrativeSnapshot_signalsFile.
    + by rewrite lookup_insert_eq.
    + by rewrite !lookup_insert_ne.
  - by rewrite !lookup_insert_ne.
  - unfold loadNarrativeHistory. rewrite history_frame by done.
    by rewrite history_frame by apply isNarrativeSnapshot_signalsFile.
Qed.

End StoreMore.

(** ** The pipeline end to end *)

Section PipelineFacts.
Import JS Scheduler Store Pipeline.
Context {Stats : Type} (getSignalStats : list Signals.Signal -> result Stats).
Context (dateValue : json -> option Z).
Context (clusterNarratives : list Signals.Signal
                             -> BuildIdeas.failure + list Scoring.Narrative).
Context (askGrok : nat -> Scoring.Scored -> BuildIdeas.reply).

#[local] Abbreviation runCollection := (Pipeline.runCollection getSignalStats dateValue).
#[local] Abbreviation runAnalysis :=
  (Pipeline.runAnalysis getSignalStats clusterNarratives askGrok).
#[local] Abbreviation runFull :=
  (Pipeline.runFull getSignalStats dateValue clusterNarratives askGrok).

Lemma runCollection_effects dayRange clock now now' r1 r2 r3 r4 es signals stats :
  runCollection dayRange clock now now' r1 r2 r3 r4 = (es, inr (signals, stats)) ->
  es = (saveSignals now now' signals (stats, dayRange)).1.
Proof.
  unfold Pipeline.runCollection.
  destruct (Signals.normalizeAll _ _ _) as [sigs|]; [|done].
  destruct (getSignalStats sigs) as [st|]; [|done].
  by intros [= <- <- <-].
Qed.

(** X19. The analysis reads what the collection saved: after a
    collection that succeeded, an analysis called without signals works
    on the signals of that collection, so the full pipeline is the
    collection followed by such an analysis. *)
Theorem X19_analysis_reads_what_collection_saved
    (dayRange : Z) (clock : nat -> string) (now1 now1' now2 now2' : string)
    (r1 r2 r3 r4 : settled) (d : gmap string (pipelineFile (Stats := Stats)))
    (es1 : list pipelineEffect) (signals : list Signals.Signal) (stats : Stats) :
  runCollection dayRange clock now1 now1' r1 r2 r3 r4 = (es1, inr (signals, stats)) ->
  runAnalysis now2 now2' None (run es1 d) = runAnalysis now2 now2' (Some signals) (run es1 d) /\
  runFull dayRange clock now1 now1' now2 now2' r1 r2 r3 r4 d =
    (es1 ++ (runAnalysis now2 now2' None (run es1 d)).1,
     match (runAnalysis now2 now2' None (run es1 d)).2 with
     | inl f => inl f
     | inr result => inr (signals, result)
     end).
Proof.
  intros Hc.
  assert (E : runAnalysis now2 now2' None (run es1 d)
              = runAnalysis now2 now2' (Some signals) (run es1 d)).
  { rewrite (runCollection_effects _ _ _ _ _ _ _ _ _ _ _ Hc).
    unfold Pipeline.runAnalysis, loadLatestSignals.
    cbn [saveSignals fst run fold_left perform]. unfold pipelineFile.
    by rewrite lookup_insert_eq. }
  split; [done|]. rewrite E. unfold Pipeline.runFull. rewrite Hc.
  by destruct (runAnalysis now2 now2' (Some signals) (run es1 d)) as [es2 [f|result]].
Qed.

Lemma collect_records r1 r2 r3 r4 :
  allRawSignals (collect r1 r2 r3 r4) = records r1 ++ records r2 ++ records r3 ++ records r4.
Proof.
  destruct r1, r2, r3, r4; cbn [collect gather allRawSignals records app];
    rewrite ?app_nil_r, <- ?app_assoc; done.
Qed.

(** X20. A collection that gathers nothing still succeeds: when no
    adapter contributes a record (each failed or returned none), the run
    saves a snapshot without signals, and the latest signals, whatever
    they were, are replaced by it. *)
Theorem X20_empty_collection_replaces_latest
    (dayRange : Z) (clock : nat -> string) (now now' : string)
    (r1 r2 r3 r4 : settled) (d : gmap string (pipelineFile (Stats := Stats)))
    (stats : Stats) :
  records r1 = [] -> records r2 = [] -> records r3 = [] -> records r4 = [] ->
  getSignalStats [] = Ok stats ->
  exists es,
    runCollection dayRange clock now now' r1 r2 r3 r4 = (es, inr ([], stats)) /\
    loadLatestSignals (run es d) =
      Some (SignalFile {| sd_timestamp := now'; signalCount := 0;
                          meta := (stats, dayRange); signals := [] |}).
Proof.
  intros H1 H2 H3 H4 Hst. eexists. split.
  - unfold Pipeline.runCollection. rewrite collect_records, H1, H2, H3, H4. cbn [app].
    change (Signals.normalizeAll dateValue clock []) with (Ok (@nil Signals.Signal)).
    cbv iota beta. rewrite Hst. reflexivity.
  - unfold loadLatestSignals. cbn [saveSignals fst run fold_left perform].
    unfold pipelineFile. by rewrite lookup_insert_eq.
Qed.

(** X21. What a successful analysis returns. The narrative at index
    [i] has rank [i + 1] and carries the ideas of the [i]-th call. Either
    the run went through, and the latest narratives are then the returned
    ones, counted, with the statistics returned; or it returned early
    without statistics: it was called without signals, there were no
    latest signals to load, and it returns no narratives and has written
    nothing. *)
Theorem X21_successful_analysis
    (now now' : string) (signals : option (list Signals.Signal))
    (d : gmap string (pipelineFile (Stats := Stats)))
    (es : list pipelineEffect)
    (narratives : list (BuildIdeas.Enriched Scoring.Scored)) (stats : option Stats) :
  runAnalysis now now' signals d = (es, inr (narratives, stats)) ->
  (forall i e, narratives !! i = Some e ->
     Scoring.rank (BuildIdeas.narrative e) = Z.of_nat i + 1 /\
     BuildIdeas.buildIdeas e = BuildIdeas.ideasFor askGrok i (BuildIdeas.narrative e)) /\
  match stats with
  | Some st =>
      loadLatestNarratives (run es d) =
        Some (NarrativeFile {| nd_timestamp := now'; narrativeCount := length narratives;
                               Store.stats := st; Store.narratives := narratives |})
  | None =>
      signals = None /\ narratives = [] /\ es = [] /\
      forall latest, loadLatestSignals d <> Some (SignalFile latest)
  end.
Proof.
  assert (H : forall sigs,
            analyse getSignalStats clusterNarratives askGrok now now' sigs
            = (es, inr (narratives, stats)) ->
            (forall i e, narratives !! i = Some e ->
               Scoring.rank (BuildIdeas.narrative e) = Z.of_nat i + 1 /\
               BuildIdeas.buildIdeas e
               = BuildIdeas.ideasFor askGrok i (BuildIdeas.narrative e)) /\
            match stats with
            | Some st =>
                loadLatestNarratives (run es d) =
                  Some (NarrativeFile {| nd_timestamp := now';
                                         narrativeCount := length narratives;
                                         Store.stats := st;
                                         Store.narratives := narratives |})
            | None =>
                signals = None /\ narratives = [] /\ es = [] /\
                forall latest, loadLatestSignals d <> Some (SignalFile latest)
            end).
  { intros sigs. unfold analyse.
    destruct (getSignalStats sigs) as [st|]; [|done].
    destruct (clusterNarratives sigs) as [|raws]; [done|].
    intros [= <- <- <-]. split.
    - intros i e He.
      set (scored := Scoring.scoreNarratives Signals.topics raws sigs) in *.
      unfold BuildIdeas.generateBuildIdeas in He.
      rewrite enrichLoop_imap in He. cbn [app Nat.add] in He.
      rewrite list_lookup_imap in He.
      destruct (scored !! i) as [n|] eqn:Hn; [|done]. injection He as <-.
      cbn [BuildIdeas.narrative BuildIdeas.buildIdeas]. split; [|done].
      unfold scored, Scoring.scoreNarratives, Scoring.assignRanks in Hn.
      rewrite list_lookup_imap in Hn.
      destruct (_ !! i) as [m|]; [|done]. by injection Hn as <-.
    - unfold loadLatestNarratives. cbn [saveNarratives fst run fold_left perform].
      unfold pipelineFile. by rewrite lookup_insert_eq. }
  unfold Pipeline.runAnalysis. destruct signals as [sigs|]; [apply H|].
  destruct (loadLatestSignals d) as [[latest|data|]|] eqn:El; [apply H|..];
    intros [= <- <- <-]; (split; [intros i e He; by rewrite lookup_nil in He|]); done.
Qed.

(** X22. A classifier call that fails fails the full run, after the
    signals were saved: the failure is passed on, not replaced by an empty
    result; the effects of the run are the two writes of [saveSignals]; the
    latest signals are the ones just collected, and the latest narratives
    are what they were. *)
Theorem X22_classifier_failure_fails_the_run
    (dayRange : Z) (clock : nat -> string) (now1 now1' now2 now2' : string)
    (r1 r2 r3 r4 : settled) (d : gmap string (pipelineFile (Stats := Stats)))
    (signals : list Signals.Signal) (stats : Stats) (f : BuildIdeas.failure) :
  Signals.normalizeAll dateValue clock (allRawSignals (collect r1 r2 r3 r4)) = Ok signals ->
  getSignalStats signals = Ok stats ->
  clusterNarratives signals = inl f ->
  let es := (saveSignals now1 now1' signals (stats, dayRange)).1 in
  runFull dayRange clock now1 now1' now2 now2' r1 r2 r3 r4 d = (es, inl f) /\
  loadLatestSignals (run es d) =
    Some (SignalFile {| sd_timestamp := now1'; signalCount := length signals;
                        meta := (stats, dayRange); Store.signals := signals |}) /\
  loadLatestNarratives (run es d) = loadLatestNarratives d.
Proof.
  intros Hn Hst Hc. cbn zeta. split; [|split].
  - unfold Pipeline.runFull, Pipeline.runCollection. rewrite Hn, Hst.
    unfold Pipeline.runAnalysis, analyse. rewrite Hst, Hc. by rewrite app_nil_r.
  - unfold loadLatestSignals. cbn [saveSignals fst run fold_left perform].
    unfold pipelineFile. by rewrite lookup_insert_eq.
  - unfold loadLatestNarratives. cbn [saveSignals fst run fold_left perform].
    unfold pipelineFile. by rewrite !lookup_insert_ne.
Qed.

End PipelineFacts.

(** ** The scheduled jobs *)

Section CronFacts.
Import Cron.

Ltac sets :=
  apply set_eq; intros ?;
  rewrite ?elem_of_difference, ?elem_of_union, ?elem_of_singleton, ?elem_of_empty;
  tauto.

Lemma stopCron_clears s :
  running s = held s ->
  stopCron s = {| collectionCron := None; analysisCron := None;
                  running := ∅; next := next s |}.
Proof.
  destruct s as [c a r n]. unfold held, stopCron, stop. cbn. intros ->.
  destruct c as [tc|], a as [ta|]; cbn; f_equal; sets.
Qed.

(** X23. No scheduled job leaks: after any sequence of [startCron] and
    [stopCron] calls the running jobs are exactly the ones the two module
    variables hold; after [startCron] there are two of them, however often
    it was called before, and after [stopCron] there is none. *)
Theorem X23_no_job_leaks (calls : list call) :
  let s := fold_left step calls initial in
  running s = held s /\
  match last calls with
  | Some Start => size (running s) = 2%nat
  | _ => running s = ∅
  end.
Proof.
  cbn zeta. induction calls as [|c calls IH] using rev_ind.
  - split; [|done]. unfold held, initial. cbn. sets.
  - rewrite fold_left_app, last_snoc. cbn [fold_left].
    destruct IH as [IH _]. set (s := fold_left step calls initial) in *.
    destruct c; cbn [step].
    + unfold startCron. rewrite (stopCron_clears s IH). cbn. unfold held. cbn.
      split; [sets|].
      rewrite (right_id_L ∅ (∪)), size_union, !size_singleton; [done|].
      apply disjoint_singleton_l, not_elem_of_singleton. lia.
    + rewrite (stopCron_clears s IH). unfold held. cbn. split; [sets|done].
Qed.

End CronFacts.

(** ** The signals endpoint *)

Section ApiFacts.
Import JS Signals Store StoreQueries Api.
Context {Narrative Stats Meta : Type}.

Lemma filter_sublist {A} (f : A -> bool) l : List.filter f l `sublist_of` l.
Proof.
  induction l as [|x l IH]; cbn [List.filter]; [done|].
  destruct (f x); by constructor.
Qed.

Lemma slice0_sublist {A} (limit : Z) (l : list A) : slice0 limit l `sublist_of` l.
Proof. unfold slice0. destruct (limit <? 0); apply sublist_take. Qed.

Lemma slice0_elem {A} (limit : Z) (l : list A) x : x ∈ slice0 limit l -> x ∈ l.
Proof. intros Hx. eapply elem_of_sublist; [done|apply slice0_sublist]. Qed.

(** X24. What [GET /api/signals] answers after a save. [timestamp] and
    [total] are what the saved document has under [timestamp] and
    [signalCount]: the second reading of the clock and the number of
    signals saved, whatever the filter, unless the metadata of the save
    had a key of that name. The signals returned are a sub-sequence of the
    saved ones, in their order, so there are at most as many; with a
    source given, every signal returned has that source; and a [limit]
    that is missing, not a number, or 0 stands for 100: without a source
    the first 100 saved signals are returned. *)
Theorem X24_signals_endpoint_after_save (own : Meta -> string -> option json)
    (now now' : string) (signals : list Signal) (meta : Meta)
    (source : option string) (limit : option Z)
    (d : gmap string (file Signal Narrative Stats Meta)) :
  let d' := run (saveSignals now now' signals meta).1 d in
  exists out,
    getSignals own source limit d' =
      Ok (latestSignals (default (JStr now') (own meta "timestamp"))
                        (default (JNum (Z.of_nat (length signals))) (own meta "signalCount"))
                        (length out) out) /\
    out `sublist_of` signals /\
    (length out <= length signals)%nat /\
    (forall src, source = Some src -> src <> "" ->
       Forall (fun s => Signals.source s = JStr src) out) /\
    (source = None -> limit = None \/ limit = Some 0 -> out = take 100 signals).
Proof.
  cbn zeta. unfold getSignals, loadLatestSignals.
  cbn [saveSignals fst run fold_left perform]. rewrite lookup_insert_eq.
  cbn [mbind option_bind parsed Store.signals].
  unfold timestampOf, signalCountOf. cbn [sd_timestamp signalCount Store.meta].
  eexists. split; [reflexivity|].
  set (matching := match source with
                   | Some src => if String.eqb src "" then signals else _
                   | None => signals
                   end).
  assert (Hm : matching `sublist_of` signals).
  { unfold matching. destruct source as [src|]; [|done].
    destruct (String.eqb src ""); [done|apply filter_sublist]. }
  assert (Hout : slice0 (match limit with
                         | Some n => if n =? 0 then 100 else n
                         | None => 100
                         end) matching `sublist_of` signals).
  { etrans; [apply slice0_sublist|done]. }
  split; [done|]. split; [by apply sublist_length|]. split.
  - intros src -> Hsrc. apply Forall_forall. intros s Hs%slice0_elem.
    unfold matching in Hs. destruct (String.eqb_spec src ""); [done|].
    apply filter_elem in Hs as [_ Hs]. unfold is_str in Hs.
    destruct (Signals.source s); try done. by apply String.eqb_eq in Hs as ->.
  - intros -> [->| ->]; reflexivity.
Qed.

End ApiFacts.

(** ** The further properties on the samples *)

Section MoreExamples.
Import JS Signals Scoring Canon Examples MoreSamples.

(** X1 on two sample narratives, one of them with confidence 0. *)
Lemma X1_total_between_10_and_110_witness :
  Forall (fun r => 10 <= totalScore r <= 110 /\
                   5 <= velocity (scores r) /\ 5 <= stage (scores r) /\
                   0 <= crossSource (scores r) /\ 0 <= evidence (scores r) /\
                   0 <= confidence (scores r) /\ 0 <= signalCount (scores r))
         (scoreNarratives Signals.topics [agents; doubtful] fiveSignals).
Proof.
  apply (X1_total_between_10_and_110 Signals.topics [agents; doubtful] fiveSignals).
  constructor; [|constructor; [|constructor]];
    intros c Hc; injection Hc as <-; split; discriminate.
Defined.

(** X2 from the first of the five signals to all five. *)
Lemma X2_more_signals_never_lower_witness :
  matchingSignalCount (scoreOne Signals.topics [topical "sig_1" ["ai"]] agents)
    <= matchingSignalCount (scoreOne Signals.topics fiveSignals agents) /\
  totalScore (scoreOne Signals.topics [topical "sig_1" ["ai"]] agents)
    <= totalScore (scoreOne Signals.topics fiveSignals agents).
Proof.
  apply (X2_more_signals_never_lower Signals.topics agents
           [topical "sig_1" ["ai"]] fiveSignals).
  apply submseteq_skip, submseteq_nil_l.
Defined.

(** X3 with the sources of [agents] in another order and one repeated. *)
Lemma X3_sources_count_once_witness :
  computeScores Signals.topics
    (Vary.withSources (Some ["onchain"; "social"; "social"]) agents) fiveSignals
  = computeScores Signals.topics agents fiveSignals.
Proof.
  apply (X3_sources_count_once Signals.topics agents ["onchain"; "social"; "social"]
           fiveSignals).
  intros x. cbn [or_empty n_sources agents].
  rewrite !elem_of_cons, !elem_of_nil. tauto.
Defined.

(** X4 with the topics of [agents] in lower case. *)
Lemma X4_topics_match_up_to_case_witness :
  computeScores Signals.topics (Vary.withTopics (Some ["ai"; "depin"]) agents) fiveSignals
  = computeScores Signals.topics agents fiveSignals.
Proof.
  apply (X4_topics_match_up_to_case Signals.topics Signals.topics agents
           ["ai"; "depin"] fiveSignals).
  - reflexivity.
  - reflexivity.
Defined.

(** X5 on a trending token. *)
Lemma X5_id_form_witness : isId "sig_bky8mv".
Proof. apply (X5_id_form tokenAlpha "sig_bky8mv"). vm_compute. reflexivity. Defined.

(** X6 on two tokens named [TokenAa] and [TokenBB]. *)
Lemma X6_ids_collide_witness :
  generateId (JObj tokenAa) = generateId (JObj tokenBB) /\
  exists out s,
    normalizeAll numericDate (fun _ => noon) [JObj tokenAa; JObj tokenBB] = Ok out /\
    out = [s] /\ normalizeSignal noon (JObj tokenAa) = Ok s.
Proof.
  destruct (normalizeAll numericDate (fun _ => noon) [JObj tokenAa; JObj tokenBB])
    as [out|e] eqn:E.
  - destruct (X6_ids_collide tokenAa tokenBB "Token" "" numericDate (fun _ => noon) out
                eq_refl eq_refl eq_refl eq_refl eq_refl eq_refl E) as (Hid & s & Hs & Hn).
    split; [exact Hid|]. exists out, s. repeat split; assumption.
  - vm_compute in E. discriminate E.
Defined.

(** X7 on a repository listing. *)
Lemma X7_topics_are_tags_witness :
  exists s, normalizeSignal noon repoThen = Ok s /\
    NoDup (topics s) /\ Forall (fun t => isTag t = true) (topics s).
Proof.
  destruct (normalizeSignal noon repoThen) as [s|e] eqn:E.
  - exists s. split; [reflexivity|]. exact (X7_topics_are_tags noon repoThen s E).
  - vm_compute in E. discriminate E.
Defined.

(** X8 on a topic list with repetitions. *)
Lemma X8_dedupeTopics_idempotent_witness :
  dedupeTopics mixedTopics = Ok ["solana"; "ai_agents"] /\
  dedupeTopics (JArr (map JStr ["solana"; "ai_agents"])) = Ok ["solana"; "ai_agents"].
Proof.
  assert (E : dedupeTopics mixedTopics = Ok ["solana"; "ai_agents"])
    by (vm_compute; reflexivity).
  split; [exact E|]. exact (X8_dedupeTopics_idempotent mixedTopics _ E).
Defined.

(** X9 on three listings of two repositories. *)
Lemma X9_first_record_of_each_id_witness :
  exists out,
    normalizeAll numericDate (fun _ => noon) [repoA; repoB; repoA] = Ok out /\
    NoDup (map sig_id out) /\ (length out <= 3)%nat.
Proof.
  destruct (normalizeAll numericDate (fun _ => noon) [repoA; repoB; repoA])
    as [out|e] eqn:E.
  - destruct (X9_first_record_of_each_id numericDate (fun _ => noon)
                [repoA; repoB; repoA] out E) as (Hnd & Hlen & _).
    exists out. repeat split; assumption.
  - vm_compute in E. discriminate E.
Defined.

(** X10 on a batch whose second record is [null]. *)
Lemma X10_one_bad_record_fails_the_batch_witness :
  normalizeAll numericDate (fun _ => noon) [repoA; JNull] = Throw TypeError.
Proof.
  apply (X10_one_bad_record_fails_the_batch numericDate (fun _ => noon)
           [repoA; JNull] 1 JNull); reflexivity.
Defined.

(** X11 on two posts listed oldest first. *)
Lemma X11_newest_first_witness :
  exists a b,
    normalizeAll numericDate (fun _ => noon) [olderPost; newerPost] = Ok [a; b] /\
    numericDate (date a) = Some 200 /\ numericDate (date b) = Some 100 /\ 100 <= 200.
Proof.
  destruct (normalizeAll numericDate (fun _ => noon) [olderPost; newerPost])
    as [out|e] eqn:E; [|vm_compute in E; discriminate E].
  pose proof E as E'. vm_compute in E'. injection E' as <-.
  eexists _, _. split; [reflexivity|]. split; [reflexivity|]. split; [reflexivity|].
  refine (X11_newest_first numericDate (fun _ => noon) [olderPost; newerPost] _ E _
            0%nat _ _ 200 100 eq_refl eq_refl eq_refl eq_refl).
  repeat constructor; eexists; reflexivity.
Defined.

(** X12 on a post with nothing but its text. *)
Lemma X12_classification_never_empty_witness :
  exists s, normalizeSignal noon barePost = Ok s /\
    truthy (source s) = true /\ truthy (subSource s) = true /\
    truthy (sentiment s) = true /\ truthy (signalType s) = true.
Proof.
  destruct (normalizeSignal noon barePost) as [s|e] eqn:E.
  - exists s. split; [reflexivity|].
    exact (X12_classification_never_empty noon barePost s E).
  - vm_compute in E. discriminate E.
Defined.

(** X13 on a reply with two ideas. *)
Lemma X13_usable_reply_gives_named_ideas_witness :
  exists ideas, BuildIdeas.generateIdeasForNarrative twoIdeas = inr ideas /\
    length ideas = 2%nat /\ Forall BuildIdeas.wellNamed ideas.
Proof. exact (X13_usable_reply_gives_named_ideas twoIdeas eq_refl). Defined.

(** X15 on two narratives, the reply for each holding a [null]. *)
Lemma X15_one_null_idea_discards_all_witness :
  BuildIdeas.generateBuildIdeas (fun _ _ => BuildIdeas.answered (JObj nullIdea))
    [agents; doubtful] !! 1%nat
  = Some {| BuildIdeas.narrative := doubtful; BuildIdeas.buildIdeas := [] |}.
Proof.
  refine (proj2 (X15_one_null_idea_discards_all
                   (fun _ _ => BuildIdeas.answered (JObj nullIdea))
                   [agents; doubtful] 1 doubtful nullIdea
                   [JObj [("name", JStr "Agent wallet")]; JNull]
                   eq_refl eq_refl eq_refl _)).
  apply elem_of_cons. right. apply elem_of_cons. by left.
Defined.

(** X16 at work: with a newest snapshot from which no document comes,
    a limit of 1 gives no document, a limit of 2 the older one. *)
Lemma unreadable_counts_against_limit :
  let older : sampleFile := Store.written noon [] JNull in
  let d : gmap string sampleFile :=
    <[Store.narrativesFile later := Store.Unreadable]> {[Store.narrativesFile noon := older]} in
  StoreQueries.loadNarrativeHistory 1 (Some d) = [] /\
  StoreQueries.loadNarrativeHistory 2 (Some d) = [older].
Proof. cbn zeta. split; vm_compute; reflexivity. Qed.

(** X18 on a save into an empty store, with the metadata of a
    collection. *)
Lemma X18_saving_signals_witness :
  exists data,
    Store.loadLatestSignals
      (Store.run (Store.saveSignals noon noon fiveSignals collectionMeta).1
                 (∅ : gmap string sampleFile))
    = Some (Store.SignalFile data) /\
    Store.signals data = fiveSignals /\
    Store.timestampOf prop data = JStr noon /\
    Store.signalCountOf prop data = JNum 5.
Proof.
  destruct (X18_saving_signals prop noon noon fiveSignals collectionMeta 10
              (∅ : gmap string sampleFile) eq_refl)
    as (data & Hlatest & _ & Hsignals & Htime & Hcount & _).
  exists data. repeat split; assumption.
Defined.

(** X24 at work: metadata with a [signalCount] of its own replaces the
    count in the saved document, and the endpoint reports it as [total]. *)
Lemma meta_replaces_signalCount :
  Api.getSignals prop None None
    (Store.run (Store.saveSignals noon noon fiveSignals
                  (JObj [("signalCount", JNum 99)])).1
               (∅ : gmap string sampleFile))
  = Ok (Api.latestSignals (JStr noon) (JNum 99) 5 fiveSignals).
Proof. vm_compute. reflexivity. Qed.

(** X19 on a collection in which two adapters fail. *)
Lemma X19_analysis_reads_what_collection_saved_witness :
  exists es signals stats,
    Pipeline.runCollection countStats numericDate 14 (fun _ => noon) noon noon
      (Scheduler.fulfilled [olderPost; newerPost]) (Scheduler.rejected "timeout")
      (Scheduler.fulfilled [repoA]) (Scheduler.rejected "quota")
    = (es, inr (signals, stats)) /\
    Pipeline.runAnalysis countStats twoClusters (fun _ _ => twoIdeas) later later None
      (Store.run es emptyStore)
    = Pipeline.runAnalysis countStats twoClusters (fun _ _ => twoIdeas) later later
        (Some signals) (Store.run es emptyStore).
Proof.
  destruct (Pipeline.runCollection countStats numericDate 14 (fun _ => noon) noon noon
              (Scheduler.fulfilled [olderPost; newerPost]) (Scheduler.rejected "timeout")
              (Scheduler.fulfilled [repoA]) (Scheduler.rejected "quota"))
    as [es [f|[signals stats]]] eqn:E; [vm_compute in E; discriminate E|].
  exists es, signals, stats. split; [reflexivity|].
  exact (proj1 (X19_analysis_reads_what_collection_saved countStats numericDate
                  twoClusters (fun _ _ => twoIdeas) 14 (fun _ => noon)
                  noon noon later later _ _ _ _ emptyStore es signals stats E)).
Defined.

(** X20 on four adapters that fail. *)
Lemma X20_empty_collection_replaces_latest_witness :
  exists es,
    Pipeline.runCollection countStats numericDate 14 (fun _ => noon) noon noon
      (Scheduler.rejected "timeout") (Scheduler.rejected "rpc down")
      (Scheduler.rejected "rate limit") (Scheduler.rejected "quota")
    = (es, inr ([], 0%nat)) /\
    Store.loadLatestSignals (Store.run es emptyStore) =
      Some (Store.SignalFile {| Store.sd_timestamp := noon; Store.signalCount := 0;
                                Store.meta := (0%nat, 14); Store.signals := [] |}).
Proof.
  exact (X20_empty_collection_replaces_latest countStats numericDate 14 (fun _ => noon)
           noon noon (Scheduler.rejected "timeout") (Scheduler.rejected "rpc down")
           (Scheduler.rejected "rate limit") (Scheduler.rejected "quota")
           emptyStore 0%nat eq_refl eq_refl eq_refl eq_refl eq_refl).
Defined.

(** X21 on an analysis of the five signals that finds two narratives. *)
Lemma X21_successful_analysis_witness :
  exists es narratives stats,
    Pipeline.runAnalysis countStats twoClusters (fun _ _ => twoIdeas) later later
      (Some fiveSignals) emptyStore
    = (es, inr (narratives, Some stats)) /\
    Store.loadLatestNarratives (Store.run es emptyStore) =
      Some (Store.NarrativeFile
              {| Store.nd_timestamp := later; Store.narrativeCount := length narratives;
                 Store.stats := stats; Store.narratives := narratives |}).
Proof.
  destruct (Pipeline.runAnalysis countStats twoClusters (fun _ _ => twoIdeas) later later
              (Some fiveSignals) emptyStore)
    as [es [f|[narratives [stats|]]]] eqn:E;
    [vm_compute in E; discriminate E| |vm_compute in E; discriminate E].
  exists es, narratives, stats. split; [reflexivity|].
  exact (proj2 (X21_successful_analysis countStats twoClusters
                  (fun _ _ => twoIdeas) later later (Some fiveSignals) emptyStore
                  es narratives (Some stats) E)).
Defined.

(** X22 on a full run whose classifier call fails. *)
Lemma X22_classifier_failure_fails_the_run_witness :
  exists signals,
    Pipeline.runFull countStats numericDate noClusters (fun _ _ => twoIdeas)
      14 (fun _ => noon) noon noon later later
      (Scheduler.fulfilled [olderPost; newerPost]) (Scheduler.rejected "timeout")
      (Scheduler.fulfilled [repoA]) (Scheduler.rejected "quota") emptyStore
    = ((Store.saveSignals noon noon signals (3%nat, 14)).1,
       inl (BuildIdeas.Rejected "503")) /\
    length signals = 3%nat.
Proof.
  destruct (Signals.normalizeAll numericDate (fun _ => noon)
              (Scheduler.allRawSignals
                 (Scheduler.collect
                    (Scheduler.fulfilled [olderPost; newerPost]) (Scheduler.rejected "timeout")
                    (Scheduler.fulfilled [repoA]) (Scheduler.rejected "quota"))))
    as [signals|e] eqn:E; [|vm_compute in E; discriminate E].
  assert (Hlen : length signals = 3%nat).
  { apply (f_equal (fun r => match r with Ok l => length l | Throw _ => O end)) in E.
    vm_compute in E. symmetry. exact E. }
  exists signals. split; [|exact Hlen].
  refine (proj1 (X22_classifier_failure_fails_the_run countStats numericDate noClusters
                   (fun _ _ => twoIdeas) 14 (fun _ => noon) noon noon later later
                   _ _ _ _ emptyStore signals 3%nat (BuildIdeas.Rejected "503")
                   E (f_equal Ok Hlen) eq_refl)).
Defined.

End MoreExamples.
